(** * FrameLogger: a shallow embedding of [FrameLogger.h]

    [FrameLogger<Ts...>] stores one [std::tuple<Ts...>] per frame in a vector
    sized at construction, stores trial-start frame numbers in a second
    vector, and prints both to a [std::ofstream] in [write()], which the
    destructor calls when [write()] was never called.

    The embedding keeps the members of the class as the fields of a record,
    threads the record through every member function, and makes the three
    ways a C++ call can end explicit in the type [outcome].

    An [int] is a [Z].  The two counters start at 0 and go up by one after
    an assignment into a vector at the counter's position; as long as that
    assignment is in range the counter is below the vector's size, which
    was given as an [int], so no execution that is defined overflows. *)

From Stdlib Require Import ZArith Ascii String List Lia DecimalString.
From stdpp Require Import base tactics option list strings.

Local Open Scope Z_scope.

(** ** How a call ends *)

(** Exceptions that can reach a caller.  [length_error] is what
    [std::vector<T>(n)] throws when [n] exceeds [max_size()].
    [CapacityExceeded] and [ConstructionError] are the names the
    specification gives to its two run-time errors. *)
Inductive exception : Set :=
  | length_error
  | CapacityExceeded
  | ConstructionError.

(** [Returns a]: the call returns normally with [a].
    [Throws e]: the call exits by throwing [e].
    [Undefined]: the call has undefined behaviour (here: [operator[]] of a
    [std::vector] applied outside [0, size())). *)
Inductive outcome (A : Type) : Type :=
  | Returns (a : A)
  | Throws (e : exception)
  | Undefined.
Arguments Returns {A} a.
Arguments Throws {A} e.
Arguments Undefined {A}.

Global Instance outcome_ret : MRet outcome := @Returns.
Global Instance outcome_bind : MBind outcome := fun A B f m =>
  match m with
  | Returns a => f a
  | Throws e => Throws e
  | Undefined => Undefined
  end.

(** ** Characters the class prints *)

(** [outfile << n] for an [int]: base 10, with a minus sign when negative. *)
Definition int_text (n : Z) : string := NilZero.string_of_int (Z.to_int n).

Definition tab : string := String "009"%char EmptyString.
Definition newline : string := String "010"%char EmptyString.

(** ** [std::ofstream] *)

Module ofstream.

(** [is_open]: a file is attached.  [fail]: [failbit] or [badbit] is set,
    as reported by [std::ios::fail()].  [file]: the characters the
    attached file holds. *)
Record t : Set := mk { is_open : bool; fail : bool; file : string }.

(** A default-constructed stream. *)
Definition init : t := {| is_open := false; fail := false; file := "" |}.

(** [good o]: an insertion into [o] reaches the file. *)
Definition good (o : t) : bool := is_open o && negb (fail o).

(** [o.open(file_name, std::ios::out)].  [writable] is the answer of the
    file system: whether [file_name] can be opened for writing.  On
    success the file is truncated and the state cleared; otherwise
    [failbit] is set.  No exception is thrown (the exception mask of a
    fresh stream is empty). *)
Definition open (o : t) (writable : bool) : t :=
  if is_open o then {| is_open := true; fail := true; file := file o |}
  else if writable then {| is_open := true; fail := false; file := "" |}
  else {| is_open := false; fail := true; file := file o |}.

(** [o << x], where [x] prints as [s].  On a stream that is not good the
    insertion writes nothing and leaves the stream failed. *)
Definition insert (o : t) (s : string) : t :=
  if good o then {| is_open := is_open o; fail := fail o; file := file o +:+ s |}
  else {| is_open := is_open o; fail := true; file := file o |}.

(** [o << std::endl]: a newline character, then a flush. *)
Definition endl (o : t) : t := insert o newline.

(** [o.close()]. *)
Definition close (o : t) : t :=
  if is_open o then {| is_open := false; fail := fail o; file := file o |}
  else {| is_open := false; fail := true; file := file o |}.

End ofstream.

(** ** [std::vector] *)

Module vector.

(** [std::vector<T>(n)] for an [int] [n], every element value-initialised
    to [x].  A negative [n] converts to a size beyond [max_size()]. *)
Definition make {A : Type} (n : Z) (x : A) : outcome (list A) :=
  if decide (0 ≤ n) then Returns (replicate (Z.to_nat n) x)
  else Throws length_error.

(** Reading [v[i]] for an [int] index [i]. *)
Definition read {A : Type} (v : list A) (i : Z) : outcome A :=
  if decide (0 ≤ i) then
    match v !! Z.to_nat i with
    | Some x => Returns x
    | None => Undefined
    end
  else Undefined.

(** The assignment [v[i] = x]. *)
Definition store {A : Type} (v : list A) (i : Z) (x : A) : outcome (list A) :=
  if decide (0 ≤ i < Z.of_nat (length v)) then Returns (<[Z.to_nat i := x]> v)
  else Undefined.

End vector.

(** ** Types that can be printed

    The class "can only log out types T that have (std::ofstream << T)
    defined".  [ty] names such types, [denote] gives their values and
    [text] the characters [outfile << item] inserts. *)
Class Streamable : Type := {
  ty : Type;
  denote : ty → Type;
  text : ∀ t : ty, denote t → string
}.

Section FrameLogger.

Context `{Streamable}.

(** [std::tuple<Ts...>] *)
Fixpoint tuple (Ts : list ty) : Type :=
  match Ts with
  | [] => unit
  | T :: Ts' => (denote T * tuple Ts')%type
  end.

(** One argument of the variadic [add_line] / [add_word]. *)
Definition token : Type := { t : ty & denote t }.

Definition token_text (tk : token) : string := text (projT1 tk) (projT2 tk).

(** The template parameters of the class, and the value-initialised
    tuple [std::tuple<Ts...>()] that fills [m_content] at construction. *)
Variable Ts : list ty.
Variable tuple_init : tuple Ts.

Record FrameLogger : Type := mkFrameLogger {
  m_index : list Z;
  m_content : list (tuple Ts);
  last_index : Z;
  last_frame : Z;
  log_written : bool;
  outfile : ofstream.t;
  headline : string
}.

(** [write_tuple_impl]: the fold [((outfile << "\t" << item), ...)]. *)
Fixpoint write_tuple_impl (Us : list ty) : tuple Us → ofstream.t → ofstream.t :=
  match Us with
  | [] => fun _ o => o
  | U :: Us' => fun tup o =>
      write_tuple_impl Us' (snd tup)
        (ofstream.insert (ofstream.insert o tab) (text U (fst tup)))
  end.

(** The constructor.  Members are initialised in declaration order, then
    the body opens the file. *)
Definition ctor (num_trials num_frames : Z) (writable : bool) : outcome FrameLogger :=
  idx ← vector.make num_trials 0;
  content ← vector.make num_frames tuple_init;
  mret {| m_index := idx; m_content := content;
          last_index := 0; last_frame := 0; log_written := false;
          outfile := ofstream.open ofstream.init writable;
          headline := "" |}.

Definition add_headline (s : FrameLogger) (headline_in : string) : FrameLogger :=
  {| m_index := m_index s; m_content := m_content s;
     last_index := last_index s; last_frame := last_frame s;
     log_written := log_written s; outfile := outfile s;
     headline := headline_in |}.

Definition start_new_trial (s : FrameLogger) : outcome FrameLogger :=
  idx ← vector.store (m_index s) (last_index s) (last_frame s);
  mret {| m_index := idx; m_content := m_content s;
          last_index := last_index s + 1; last_frame := last_frame s;
          log_written := log_written s; outfile := outfile s;
          headline := headline s |}.

Definition add_frame (s : FrameLogger) (info_in : tuple Ts) : outcome FrameLogger :=
  content ← vector.store (m_content s) (last_frame s) info_in;
  mret {| m_index := m_index s; m_content := content;
          last_index := last_index s; last_frame := last_frame s + 1;
          log_written := log_written s; outfile := outfile s;
          headline := headline s |}.

(** [(outfile << ... << ts)]: a left fold starting from [outfile]. *)
Definition insert_all (o : ofstream.t) (ts : list token) : ofstream.t :=
  fold_left (fun o tk => ofstream.insert o (token_text tk)) ts o.

Definition with_outfile (s : FrameLogger) (o : ofstream.t) : FrameLogger :=
  {| m_index := m_index s; m_content := m_content s;
     last_index := last_index s; last_frame := last_frame s;
     log_written := log_written s; outfile := o;
     headline := headline s |}.

Definition add_line (s : FrameLogger) (ts : list token) : FrameLogger :=
  with_outfile s (ofstream.endl (insert_all (outfile s) ts)).

Definition add_word (s : FrameLogger) (ts : list token) : FrameLogger :=
  with_outfile s (insert_all (outfile s) ts).

(** The first loop of [write()]: [n] iterations remain, [ri] is the loop
    variable. *)
Fixpoint write_indices (n : nat) (ri : Z) (v : list Z) (o : ofstream.t)
  : outcome ofstream.t :=
  match n with
  | O => mret o
  | S n' =>
      x ← vector.read v ri;
      write_indices n' (ri + 1) v (ofstream.insert (ofstream.insert o (int_text x)) tab)
  end.

(** The second loop of [write()]. *)
Fixpoint write_frames (n : nat) (i : Z) (v : list (tuple Ts)) (o : ofstream.t)
  : outcome ofstream.t :=
  match n with
  | O => mret o
  | S n' =>
      row ← vector.read v i;
      write_frames n' (i + 1) v
        (ofstream.endl (write_tuple_impl Ts row (ofstream.insert o (int_text i))))
  end.

Definition write (s : FrameLogger) : outcome FrameLogger :=
  let o := ofstream.endl (ofstream.insert (outfile s) "trial index:") in
  o ← write_indices (Z.to_nat (last_index s)) 0 (m_index s) o;
  let o := ofstream.endl (ofstream.endl o) in
  let o := ofstream.endl
             (ofstream.insert (ofstream.insert o ("fr_nr" +:+ tab)) (headline s)) in
  o ← write_frames (Z.to_nat (last_frame s)) 0 (m_content s) o;
  mret {| m_index := m_index s; m_content := m_content s;
          last_index := last_index s; last_frame := last_frame s;
          log_written := true; outfile := o;
          headline := headline s |}.

(** The destructor: the object is gone afterwards, what remains is the
    stream (and through it the file). *)
Definition dtor (s : FrameLogger) : outcome ofstream.t :=
  s' ← (if log_written s then mret s else write s);
  mret (ofstream.close (outfile s')).

(** ** Sequences of calls *)

Inductive call : Type :=
  | StartNewTrial
  | AddFrame (info_in : tuple Ts)
  | AddLine (ts : list token)
  | AddWord (ts : list token)
  | AddHeadline (headline_in : string)
  | Write.

Definition do_call (s : FrameLogger) (c : call) : outcome FrameLogger :=
  match c with
  | StartNewTrial => start_new_trial s
  | AddFrame info_in => add_frame s info_in
  | AddLine ts => mret (add_line s ts)
  | AddWord ts => mret (add_word s ts)
  | AddHeadline h => mret (add_headline s h)
  | Write => write s
  end.

Fixpoint run (s : FrameLogger) (cs : list call) : outcome FrameLogger :=
  match cs with
  | [] => mret s
  | c :: cs' => s' ← do_call s c; run s' cs'
  end.

End FrameLogger.

Arguments FrameLogger {_} Ts.
Arguments m_index {_ Ts} _.
Arguments m_content {_ Ts} _.
Arguments last_index {_ Ts} _.
Arguments last_frame {_ Ts} _.
Arguments log_written {_ Ts} _.
Arguments outfile {_ Ts} _.
Arguments headline {_ Ts} _.
Arguments ctor {_} Ts tuple_init num_trials num_frames writable.
Arguments add_headline {_ Ts} s headline_in.
Arguments start_new_trial {_ Ts} s.
Arguments add_frame {_ Ts} s info_in.
Arguments with_outfile {_ Ts} s o.
Arguments add_line {_ Ts} s ts.
Arguments add_word {_ Ts} s ts.
Arguments write_frames {_} Ts n i v o.
Arguments write {_ Ts} s.
Arguments dtor {_ Ts} s.
Arguments call {_} Ts.
Arguments StartNewTrial {_ Ts}.
Arguments AddFrame {_ Ts} info_in.
Arguments AddLine {_ Ts} ts.
Arguments AddWord {_ Ts} ts.
Arguments AddHeadline {_ Ts} headline_in.
Arguments Write {_ Ts}.
Arguments do_call {_ Ts} s c.
Arguments run {_ Ts} s cs.

(** ** A concrete family of printable types

    [int] prints in base 10 (with a leading minus sign when negative);
    a [std::string] or string literal prints verbatim. *)
Inductive cpp_type : Set := Int | CString.

Global Instance cpp_streamable : Streamable := {|
  ty := cpp_type;
  denote t := match t with Int => Z | CString => string end;
  text t := match t with Int => int_text | CString => fun x => x end
|}.

Definition int_tok (n : Z) : token := existT Int n.
Definition str_tok (s : string) : token := existT CString s.

(** The recorder of the scenario in the specification:
    [FrameLogger<int, std::string> log(2, 5, file)]. *)
Definition scenario_schema : list cpp_type := [Int; CString].
Definition scenario_frame (n : Z) (w : string) : tuple scenario_schema := (n, (w, tt)).
Definition scenario_init : tuple scenario_schema := scenario_frame 0 "".
Definition scenario_calls : list (call scenario_schema) :=
  [ StartNewTrial;
    AddFrame (scenario_frame 1 "a"); AddFrame (scenario_frame 1 "a");
    AddFrame (scenario_frame 1 "a");
    StartNewTrial;
    AddFrame (scenario_frame 4 "b"); AddFrame (scenario_frame 4 "b");
    Write ].

(** ** The output format, following the words of the specification *)

Section Format.

Context `{Streamable} {Ts : list ty}.

(** Strings written one after the other. *)
Fixpoint join (l : list string) : string :=
  match l with
  | [] => ""
  | x :: l' => x +:+ join l'
  end.

(** The text representation of each field of a row, in schema order. *)
Fixpoint field_texts (Us : list ty) : tuple Us → list string :=
  match Us with
  | [] => fun _ => []
  | U :: Us' => fun tup => text U (fst tup) :: field_texts Us' (snd tup)
  end.

(** The recorded indices and rows: the first [last_index] elements of
    [m_index], the first [last_frame] elements of [m_content]. *)
Definition stored_indices (s : FrameLogger Ts) : list Z :=
  take (Z.to_nat (last_index s)) (m_index s).
Definition stored_rows (s : FrameLogger Ts) : list (tuple Ts) :=
  take (Z.to_nat (last_frame s)) (m_content s).

(** "the [n_idx] recorded indices, each followed by a tab character" *)
Definition index_line (idx : list Z) : string :=
  join (map (fun x => int_text x +:+ tab) idx).

(** "a line beginning with the literal integer [i], then for each field
    of row [i] in schema order, a tab character followed by that field's
    default text representation, terminated by a line terminator" *)
Definition row_line (i : Z) (row : tuple Ts) : string :=
  int_text i +:+ join (map (fun f => tab +:+ f) (field_texts Ts row)) +:+ newline.

(** The row lines for rows numbered from [i]. *)
Fixpoint row_lines (i : Z) (rows : list (tuple Ts)) : string :=
  match rows with
  | [] => ""
  | row :: rows' => row_line i row +:+ row_lines (i + 1) rows'
  end.

(** Steps 1 to 5 of the specification's serialization. *)
Definition serialization (s : FrameLogger Ts) : string :=
  "trial index:" +:+ newline +:+
  index_line (stored_indices s) +:+ newline +:+
  newline +:+
  "fr_nr" +:+ tab +:+ headline s +:+ newline +:+
  row_lines 0 (stored_rows s).

(** The data-model invariant [n_idx ≤ T] and [n_rows ≤ F], with the
    capacities [T] and [F] being the sizes of the two vectors. *)
Definition within_capacity (s : FrameLogger Ts) : Prop :=
  0 ≤ last_index s ≤ Z.of_nat (length (m_index s)) ∧
  0 ≤ last_frame s ≤ Z.of_nat (length (m_content s)).

(** The values of [n_rows] at the [start_new_trial] calls of a call
    sequence that starts with [n] recorded rows. *)
Fixpoint observed_n_rows (n : Z) (cs : list (call Ts)) : list Z :=
  match cs with
  | [] => []
  | StartNewTrial :: cs' => n :: observed_n_rows n cs'
  | AddFrame _ :: cs' => observed_n_rows (n + 1) cs'
  | _ :: cs' => observed_n_rows n cs'
  end.

Definition is_write (c : call Ts) : bool :=
  match c with Write => true | _ => false end.
Definition is_add_frame (c : call Ts) : bool :=
  match c with AddFrame _ => true | _ => false end.
Definition is_raw (c : call Ts) : bool :=
  match c with AddLine _ | AddWord _ => true | _ => false end.

Definition is_start_new_trial (c : call Ts) : bool :=
  match c with StartNewTrial => true | _ => false end.

(** The number of [add_frame] calls, and of [start_new_trial] calls, in a
    call sequence. *)
Fixpoint frames_added (cs : list (call Ts)) : Z :=
  match cs with
  | [] => 0
  | c :: cs' => (if is_add_frame c then 1 else 0) + frames_added cs'
  end.
Fixpoint trials_started (cs : list (call Ts)) : Z :=
  match cs with
  | [] => 0
  | c :: cs' => (if is_start_new_trial c then 1 else 0) + trials_started cs'
  end.

(** "writes each token's text representation consecutively to the sink,
    then a single line terminator"; "identical but with no trailing
    terminator". *)
Definition tokens_text (ts : list token) : string := join (map token_text ts).
Definition raw_text (c : call Ts) : string :=
  match c with
  | AddLine ts => tokens_text ts +:+ newline
  | AddWord ts => tokens_text ts
  | _ => ""
  end.

(** The rows passed to the [add_frame] calls of a call sequence, in call
    order. *)
Fixpoint frames_of (cs : list (call Ts)) : list (tuple Ts) :=
  match cs with
  | [] => []
  | AddFrame info_in :: cs' => info_in :: frames_of cs'
  | _ :: cs' => frames_of cs'
  end.

(** The argument of the last [add_headline] call of a call sequence, [h]
    when there is none. *)
Fixpoint last_headline (h : string) (cs : list (call Ts)) : string :=
  match cs with
  | [] => h
  | AddHeadline h' :: cs' => last_headline h' cs'
  | _ :: cs' => last_headline h cs'
  end.

(** A list of integers is non-decreasing. *)
Definition non_decreasing (l : list Z) : Prop :=
  ∀ (i j : nat) (x y : Z), (i ≤ j)%nat → l !! i = Some x → l !! j = Some y → x ≤ y.

(** Two recorders that agree on everything but the stream. *)
Definition same_data (s1 s2 : FrameLogger Ts) : Prop :=
  m_index s1 = m_index s2 ∧ m_content s1 = m_content s2 ∧
  last_index s1 = last_index s2 ∧ last_frame s1 = last_frame s2 ∧
  log_written s1 = log_written s2 ∧ headline s1 = headline s2.

(** Two recorders with the same data and streams related by [R]. *)
Definition related (R : ofstream.t → ofstream.t → Prop) (s1 s2 : FrameLogger Ts) : Prop :=
  same_data s1 s2 ∧ R (outfile s1) (outfile s2).

(** A stream that is not good and whose file holds nothing. *)
Definition unwritten (o : ofstream.t) : Prop :=
  ofstream.good o = false ∧ ofstream.file o = "".

End Format.

(** Two calls end the same way, with related results when they return. *)
Definition outcome_rel {A B : Type} (R : A → B → Prop)
    (r1 : outcome A) (r2 : outcome B) : Prop :=
  match r1, r2 with
  | Returns a, Returns b => R a b
  | Throws e1, Throws e2 => e1 = e2
  | Undefined, Undefined => True
  | _, _ => False
  end.

(** ** Concrete recorders *)

(** [FrameLogger<int, std::string> log(2, 5, file)] right after
    construction, the file having opened. *)
Definition fresh_recorder : FrameLogger scenario_schema :=
  {| m_index := [0; 0];
     m_content := replicate 5 scenario_init;
     last_index := 0; last_frame := 0; log_written := false;
     outfile := {| ofstream.is_open := true; ofstream.fail := false;
                   ofstream.file := "" |};
     headline := "" |}.

(** The scenario with a headline and a negative field, before any
    [write()]: two trials, of three and of two frames. *)
Definition filled_calls : list (call scenario_schema) :=
  [ AddHeadline "count";
    StartNewTrial;
    AddFrame (scenario_frame 1 "a"); AddFrame (scenario_frame 1 "a");
    AddFrame (scenario_frame 1 "a");
    StartNewTrial;
    AddFrame (scenario_frame (-7) "b"); AddFrame (scenario_frame 4 "b") ].

(** The recorder [filled_calls] leads to (see [filled_recorder_reached]). *)
Definition filled_recorder : FrameLogger scenario_schema :=
  {| m_index := [0; 3];
     m_content := [ scenario_frame 1 "a"; scenario_frame 1 "a"; scenario_frame 1 "a";
                    scenario_frame (-7) "b"; scenario_frame 4 "b" ];
     last_index := 2; last_frame := 5; log_written := false;
     outfile := {| ofstream.is_open := true; ofstream.fail := false;
                   ofstream.file := "" |};
     headline := "count" |}.

(** [FrameLogger<int, std::string> log(1, 1, file)] after
    [start_new_trial()] and [add_frame(1, "a")]: both vectors are full. *)
Definition full_recorder : FrameLogger scenario_schema :=
  {| m_index := [0];
     m_content := [scenario_frame 1 "a"];
     last_index := 1; last_frame := 1; log_written := false;
     outfile := {| ofstream.is_open := true; ofstream.fail := false;
                   ofstream.file := "" |};
     headline := "" |}.

(** The recorder of the scenario after its calls (see [scenario_run]). *)
Definition scenario_recorder : FrameLogger scenario_schema :=
  Eval vm_compute in
    match run fresh_recorder scenario_calls with
    | Returns s => s
    | _ => fresh_recorder
    end.

(** [FrameLogger<int, std::string> log(2, 5, file)] right after
    construction, the file not having opened. *)
Definition unopened_recorder : FrameLogger scenario_schema :=
  {| m_index := [0; 0];
     m_content := replicate 5 scenario_init;
     last_index := 0; last_frame := 0; log_written := false;
     outfile := {| ofstream.is_open := false; ofstream.fail := true;
                   ofstream.file := "" |};
     headline := "" |}.

(** The scenario with raw output and a headline in between, and no
    [write()]. *)
Definition annotated_calls : list (call scenario_schema) :=
  [ AddLine [str_tok "run "; int_tok 7];
    StartNewTrial;
    AddFrame (scenario_frame 1 "a");
    AddHeadline "n";
    AddWord [str_tok "x"];
    AddFrame (scenario_frame 4 "b");
    AddHeadline "count" ].

(** The recorder after [annotated_calls] (see [annotated_run]). *)
Definition annotated_recorder : FrameLogger scenario_schema :=
  Eval vm_compute in
    match run fresh_recorder annotated_calls with
    | Returns s => s
    | _ => fresh_recorder
    end.

(** The raw calls of the specification's example:
    [add_line("x", 1); add_word("y"); add_word("z")]. *)
Definition raw_calls : list (call scenario_schema) :=
  [ AddLine [str_tok "x"; int_tok 1]; AddWord [str_tok "y"]; AddWord [str_tok "z"] ].

(** * Properties *)

(** ** Strings *)

Lemma string_app_nil_r (a : string) : a +:+ "" = a.
Proof. induction a as [|c a IH]; [done|]. unfold String.app in *. cbn. by rewrite IH. Qed.

Lemma string_app_assoc (a b c : string) : (a +:+ b) +:+ c = a +:+ b +:+ c.
Proof.
  induction a as [|x a IH]; [done|].
  unfold String.app in *. cbn. by rewrite IH.
Qed.

(** ** The stream *)

Lemma insert_good (o : ofstream.t) (x : string) :
  ofstream.good o = true →
  ofstream.insert o x =
    {| ofstream.is_open := ofstream.is_open o; ofstream.fail := ofstream.fail o;
       ofstream.file := ofstream.file o +:+ x |}.
Proof. intros Hg. unfold ofstream.insert. by rewrite Hg. Qed.

Lemma insert_keeps_good (o : ofstream.t) (x : string) :
  ofstream.good o = true → ofstream.good (ofstream.insert o x) = true.
Proof. intros Hg. by rewrite insert_good. Qed.

Lemma insert_file_good (o : ofstream.t) (x : string) :
  ofstream.good o = true →
  ofstream.file (ofstream.insert o x) = ofstream.file o +:+ x.
Proof. intros Hg. by rewrite insert_good. Qed.

Lemma insert_not_good (o : ofstream.t) (x : string) :
  ofstream.good o = false →
  ofstream.insert o x =
    {| ofstream.is_open := ofstream.is_open o; ofstream.fail := true;
       ofstream.file := ofstream.file o |}.
Proof. intros Hg. unfold ofstream.insert. by rewrite Hg. Qed.

Lemma insert_insert (o : ofstream.t) (a b : string) :
  ofstream.insert (ofstream.insert o a) b = ofstream.insert o (a +:+ b).
Proof.
  destruct (ofstream.good o) eqn:Hg.
  - rewrite (insert_good (ofstream.insert o a)) by by apply insert_keeps_good.
    rewrite !insert_good by done. cbn. by rewrite string_app_assoc.
  - rewrite (insert_not_good o a), (insert_not_good o (a +:+ b)) by done.
    rewrite insert_not_good; [done|].
    unfold ofstream.good. cbn. by rewrite andb_false_r.
Qed.

Lemma insert_appends (o : ofstream.t) (x : string) :
  ∃ suffix, ofstream.file (ofstream.insert o x) = ofstream.file o +:+ suffix.
Proof.
  destruct (ofstream.good o) eqn:Hg.
  - exists x. by apply insert_file_good.
  - exists "". rewrite insert_not_good by done. cbn. by rewrite string_app_nil_r.
Qed.

(** ** The vectors *)

Lemma read_in_range {A : Type} (v : list A) (i : Z) :
  0 ≤ i < Z.of_nat (length v) →
  ∃ x, v !! Z.to_nat i = Some x ∧ vector.read v i = Returns x.
Proof.
  intros [Hlo Hhi].
  destruct (lookup_lt_is_Some_2 v (Z.to_nat i)) as [x Hx]; [lia|].
  exists x. split; [done|].
  unfold vector.read. rewrite decide_True by done. by rewrite Hx.
Qed.

Lemma store_in_range {A : Type} (v : list A) (i : Z) (x : A) :
  0 ≤ i < Z.of_nat (length v) →
  vector.store v i x = Returns (<[Z.to_nat i := x]> v).
Proof. intros Hi. unfold vector.store. by rewrite decide_True. Qed.

Lemma store_out_of_range {A : Type} (v : list A) (i : Z) (x : A) :
  ¬ (0 ≤ i < Z.of_nat (length v)) → vector.store v i x = Undefined.
Proof. intros Hi. unfold vector.store. by rewrite decide_False. Qed.

(** ** What [write()] prints *)

Section WriteFormat.

Context `{Streamable} {Ts : list ty}.

Lemma write_tuple_impl_join (Us : list ty) (row : tuple Us) (o : ofstream.t) (a : string) :
  write_tuple_impl Us row (ofstream.insert o a) =
  ofstream.insert o (a +:+ join (map (fun f => tab +:+ f) (field_texts Us row))).
Proof.
  revert row a. induction Us as [|U Us IH]; intros row a; cbn.
  - by rewrite string_app_nil_r.
  - rewrite !insert_insert, IH. f_equal. by rewrite !string_app_assoc.
Qed.

Lemma write_indices_join (n : nat) (ri : Z) (v : list Z) (o : ofstream.t) (a : string) :
  0 ≤ ri → ri + Z.of_nat n ≤ Z.of_nat (length v) →
  write_indices n ri v (ofstream.insert o a) =
  Returns (ofstream.insert o (a +:+ index_line (take n (drop (Z.to_nat ri) v)))).
Proof.
  revert ri a. induction n as [|n IH]; intros ri a Hlo Hhi.
  - cbn. unfold index_line. cbn. by rewrite string_app_nil_r.
  - destruct (read_in_range v ri) as (x & Hx & Hat); [lia|].
    cbn [write_indices]. rewrite Hat. cbn.
    rewrite !insert_insert, IH by lia.
    rewrite (drop_S _ _ _ Hx). cbn [take map].
    replace (Z.to_nat (ri + 1)) with (S (Z.to_nat ri)) by lia.
    unfold index_line. cbn [map join]. by rewrite !string_app_assoc.
Qed.

Lemma write_frames_join (n : nat) (i : Z) (v : list (tuple Ts)) (o : ofstream.t) (a : string) :
  0 ≤ i → i + Z.of_nat n ≤ Z.of_nat (length v) →
  write_frames Ts n i v (ofstream.insert o a) =
  Returns (ofstream.insert o (a +:+ row_lines i (take n (drop (Z.to_nat i) v)))).
Proof.
  revert i a. induction n as [|n IH]; intros i a Hlo Hhi.
  - cbn. by rewrite string_app_nil_r.
  - destruct (read_in_range v i) as (row & Hrow & Hat); [lia|].
    cbn [write_frames]. rewrite Hat. cbn.
    unfold ofstream.endl.
    rewrite insert_insert, write_tuple_impl_join, insert_insert, IH by lia.
    rewrite (drop_S _ _ _ Hrow). cbn [take row_lines].
    replace (Z.to_nat (i + 1)) with (S (Z.to_nat i)) by lia.
    unfold row_line. by rewrite !string_app_assoc.
Qed.

(** Within capacity, [write()] returns, and what it does to the recorder
    is one insertion of [serialization s] and setting [log_written]. *)
Lemma write_within_capacity (s : FrameLogger Ts) :
  within_capacity s →
  write s = Returns
    {| m_index := m_index s; m_content := m_content s;
       last_index := last_index s; last_frame := last_frame s;
       log_written := true;
       outfile := ofstream.insert (outfile s) (serialization s);
       headline := headline s |}.
Proof.
  intros [[Hi0 Hi1] [Hf0 Hf1]]. unfold write, ofstream.endl.
  rewrite insert_insert, write_indices_join by lia. cbn.
  rewrite !insert_insert, write_frames_join by lia. cbn.
  do 2 f_equal. unfold serialization, stored_indices, stored_rows.
  by rewrite !string_app_assoc.
Qed.

End WriteFormat.

(** ** Invariants of the member functions *)

Section Invariants.

Context `{Streamable} {Ts : list ty}.
Implicit Types (s : FrameLogger Ts) (c : call Ts) (cs : list (call Ts)).

Lemma insert_all_good (o : ofstream.t) (ts : list token) :
  ofstream.good o = true →
  ofstream.good (insert_all o ts) = true ∧
  ofstream.file (insert_all o ts) = ofstream.file o +:+ tokens_text ts.
Proof.
  revert o. induction ts as [|tk ts IH]; intros o Hg; cbn.
  - by rewrite string_app_nil_r.
  - destruct (IH (ofstream.insert o (token_text tk))) as [Hg' Hf'].
    { by apply insert_keeps_good. }
    split; [done|]. unfold insert_all in Hf'. rewrite Hf'.
    rewrite insert_file_good by done. by rewrite string_app_assoc.
Qed.

Lemma insert_all_appends (o : ofstream.t) (ts : list token) :
  ∃ suffix, ofstream.file (insert_all o ts) = ofstream.file o +:+ suffix.
Proof.
  revert o. induction ts as [|tk ts IH]; intros o; cbn.
  - exists "". by rewrite string_app_nil_r.
  - destruct (IH (ofstream.insert o (token_text tk))) as [b Hb].
    destruct (insert_appends o (token_text tk)) as [a Ha].
    exists (a +:+ b). unfold insert_all in Hb. by rewrite Hb, Ha, string_app_assoc.
Qed.

Lemma ctor_returns (tuple_init : tuple Ts) (T F : Z) (writable : bool) :
  0 ≤ T → 0 ≤ F →
  ctor Ts tuple_init T F writable = Returns
    {| m_index := replicate (Z.to_nat T) 0;
       m_content := replicate (Z.to_nat F) tuple_init;
       last_index := 0; last_frame := 0; log_written := false;
       outfile := ofstream.open ofstream.init writable;
       headline := "" |}.
Proof. intros HT HF. unfold ctor, vector.make. by rewrite !decide_True. Qed.

Lemma ctor_inv (tuple_init : tuple Ts) (T F : Z) (writable : bool) s :
  ctor Ts tuple_init T F writable = Returns s →
  0 ≤ T ∧ 0 ≤ F ∧
  s = {| m_index := replicate (Z.to_nat T) 0;
         m_content := replicate (Z.to_nat F) tuple_init;
         last_index := 0; last_frame := 0; log_written := false;
         outfile := ofstream.open ofstream.init writable;
         headline := "" |}.
Proof.
  unfold ctor, vector.make. intros Hs.
  destruct (decide (0 ≤ T)); [|done]. destruct (decide (0 ≤ F)); [|done].
  cbn in Hs. by injection Hs as <-.
Qed.

Lemma ctor_fresh (tuple_init : tuple Ts) (T F : Z) (writable : bool) s :
  ctor Ts tuple_init T F writable = Returns s →
  within_capacity s ∧
  Z.of_nat (length (m_index s)) = T ∧ Z.of_nat (length (m_content s)) = F ∧
  last_index s = 0 ∧ last_frame s = 0 ∧ log_written s = false ∧
  headline s = "" ∧ outfile s = ofstream.open ofstream.init writable.
Proof.
  intros (HT & HF & ->)%ctor_inv. unfold within_capacity. cbn.
  rewrite !length_replicate. repeat split; lia.
Qed.

Lemma start_new_trial_in_range s :
  0 ≤ last_index s < Z.of_nat (length (m_index s)) →
  start_new_trial s = Returns
    {| m_index := <[Z.to_nat (last_index s) := last_frame s]> (m_index s);
       m_content := m_content s;
       last_index := last_index s + 1; last_frame := last_frame s;
       log_written := log_written s; outfile := outfile s;
       headline := headline s |}.
Proof. intros Hi. unfold start_new_trial. by rewrite store_in_range. Qed.

Lemma add_frame_in_range s (info_in : tuple Ts) :
  0 ≤ last_frame s < Z.of_nat (length (m_content s)) →
  add_frame s info_in = Returns
    {| m_index := m_index s;
       m_content := <[Z.to_nat (last_frame s) := info_in]> (m_content s);
       last_index := last_index s; last_frame := last_frame s + 1;
       log_written := log_written s; outfile := outfile s;
       headline := headline s |}.
Proof. intros Hi. unfold add_frame. by rewrite store_in_range. Qed.

Lemma start_new_trial_inv s s' :
  start_new_trial s = Returns s' →
  0 ≤ last_index s < Z.of_nat (length (m_index s)) ∧
  s' = {| m_index := <[Z.to_nat (last_index s) := last_frame s]> (m_index s);
          m_content := m_content s;
          last_index := last_index s + 1; last_frame := last_frame s;
          log_written := log_written s; outfile := outfile s;
          headline := headline s |}.
Proof.
  unfold start_new_trial, vector.store. intros Hs.
  destruct (decide _) as [Hi|]; [|done]. cbn in Hs. by injection Hs as <-.
Qed.

Lemma add_frame_inv s (info_in : tuple Ts) s' :
  add_frame s info_in = Returns s' →
  0 ≤ last_frame s < Z.of_nat (length (m_content s)) ∧
  s' = {| m_index := m_index s;
          m_content := <[Z.to_nat (last_frame s) := info_in]> (m_content s);
          last_index := last_index s; last_frame := last_frame s + 1;
          log_written := log_written s; outfile := outfile s;
          headline := headline s |}.
Proof.
  unfold add_frame, vector.store. intros Hs.
  destruct (decide _) as [Hi|]; [|done]. cbn in Hs. by injection Hs as <-.
Qed.

(** Appending at position [n] of a vector extends its first [n] elements
    by the new one. *)
Lemma take_store {A : Type} (v : list A) (n : Z) (x : A) :
  0 ≤ n < Z.of_nat (length v) →
  take (Z.to_nat (n + 1)) (<[Z.to_nat n := x]> v) = take (Z.to_nat n) v ++ [x].
Proof.
  intros Hn. replace (Z.to_nat (n + 1)) with (S (Z.to_nat n)) by lia.
  rewrite (take_S_r _ _ x).
  - by rewrite take_insert_ge.
  - apply list_lookup_insert_eq. lia.
Qed.

(** What one call that returns does to a recorder within capacity. *)
Lemma do_call_step s c s' :
  within_capacity s → do_call s c = Returns s' →
  within_capacity s' ∧
  length (m_index s') = length (m_index s) ∧
  length (m_content s') = length (m_content s) ∧
  stored_indices s' = stored_indices s ++ observed_n_rows (last_frame s) [c] ∧
  last_frame s' = last_frame s + frames_added [c] ∧
  last_index s' = last_index s + trials_started [c] ∧
  (ofstream.good (outfile s) = true → ofstream.good (outfile s') = true) ∧
  (is_write c = false → log_written s' = log_written s).
Proof.
  intros Hwf Hc. pose proof Hwf as [[Hi0 Hi1] [Hf0 Hf1]].
  destruct c as [|info_in|ts|ts|h|]; cbn in Hc.
  - apply start_new_trial_inv in Hc as [Hr ->].
    unfold within_capacity, stored_indices. cbn.
    rewrite length_insert, take_store by done. repeat split; (done || lia).
  - apply add_frame_inv in Hc as [Hr ->].
    unfold within_capacity, stored_indices. cbn.
    rewrite length_insert, app_nil_r. repeat split; (done || lia).
  - injection Hc as <-. unfold within_capacity, stored_indices. cbn.
    rewrite app_nil_r. repeat split; try (done || lia).
    intros Hg. apply insert_keeps_good. by apply insert_all_good.
  - injection Hc as <-. unfold within_capacity, stored_indices. cbn.
    rewrite app_nil_r. repeat split; try (done || lia).
    intros Hg. by apply insert_all_good.
  - injection Hc as <-. unfold within_capacity, stored_indices. cbn.
    rewrite app_nil_r. repeat split; (done || lia).
  - rewrite write_within_capacity in Hc by done. injection Hc as <-.
    unfold within_capacity, stored_indices. cbn.
    rewrite app_nil_r. repeat split; try (done || lia).
    apply insert_keeps_good.
Qed.

Lemma observed_n_rows_cons (n : Z) c cs :
  observed_n_rows n (c :: cs) =
  observed_n_rows n [c] ++ observed_n_rows (n + frames_added [c]) cs.
Proof.
  destruct c; cbn; rewrite ?Z.add_0_r; done.
Qed.

(** What a call sequence that returns does to a recorder within capacity. *)
Lemma run_steps cs s s' :
  within_capacity s → run s cs = Returns s' →
  within_capacity s' ∧
  length (m_index s') = length (m_index s) ∧
  length (m_content s') = length (m_content s) ∧
  stored_indices s' = stored_indices s ++ observed_n_rows (last_frame s) cs ∧
  last_frame s' = last_frame s + frames_added cs ∧
  last_index s' = last_index s + trials_started cs ∧
  (ofstream.good (outfile s) = true → ofstream.good (outfile s') = true) ∧
  (forallb (fun c => negb (is_write c)) cs = true → log_written s' = log_written s).
Proof.
  revert s. induction cs as [|c cs IH]; intros s Hwf Hrun.
  - injection Hrun as <-. cbn. rewrite app_nil_r.
    split; [done|]. repeat split; (done || lia).
  - cbn [run] in Hrun. destruct (do_call s c) as [s1| |] eqn:Hc; try done.
    cbn in Hrun.
    destruct (do_call_step _ _ _ Hwf Hc)
      as (Hwf1 & Hli & Hlc & Hidx & Hfr & Htr & Hg & Hw).
    destruct (IH _ Hwf1 Hrun)
      as (Hwf' & Hli' & Hlc' & Hidx' & Hfr' & Htr' & Hg' & Hw').
    split; [done|]. split; [congruence|]. split; [congruence|].
    split; [|split; [|split; [|split]]].
    + rewrite Hidx', Hidx, (observed_n_rows_cons _ c cs), <- Hfr.
      by rewrite <- app_assoc.
    + rewrite Hfr', Hfr. cbn [frames_added]. lia.
    + rewrite Htr', Htr. cbn [trials_started]. lia.
    + auto.
    + cbn [forallb]. intros [Hc1 Hcs]%andb_true_iff.
      rewrite Hw' by done. apply Hw. by destruct (is_write c).
Qed.

Lemma frames_added_nonneg cs : 0 ≤ frames_added cs.
Proof. induction cs as [|c cs IH]; cbn; [done|]. destruct (is_add_frame c); lia. Qed.

Lemma trials_started_nonneg cs : 0 ≤ trials_started cs.
Proof. induction cs as [|c cs IH]; cbn; [done|]. destruct (is_start_new_trial c); lia. Qed.

(** A call sequence that stays within the capacities returns. *)
Lemma run_returns cs s :
  within_capacity s →
  last_index s + trials_started cs ≤ Z.of_nat (length (m_index s)) →
  last_frame s + frames_added cs ≤ Z.of_nat (length (m_content s)) →
  ∃ s', run s cs = Returns s'.
Proof.
  revert s. induction cs as [|c cs IH]; intros s Hwf Htr Hfr; [by eexists|].
  pose proof (frames_added_nonneg cs). pose proof (trials_started_nonneg cs).
  pose proof Hwf as [[Hi0 Hi1] [Hf0 Hf1]].
  assert (∃ s1, do_call s c = Returns s1) as [s1 Hc].
  { destruct c; cbn in *; try by eexists.
    - eexists. apply start_new_trial_in_range. lia.
    - eexists. apply add_frame_in_range. lia.
    - eexists. by apply write_within_capacity. }
  cbn [run]. rewrite Hc. cbn.
  destruct (do_call_step _ _ _ Hwf Hc) as (Hwf1 & Hli & Hlc & _ & Hfr1 & Htr1 & _).
  apply IH; [done|..].
  - rewrite Hli, Htr1. cbn [trials_started] in *. lia.
  - rewrite Hlc, Hfr1. cbn [frames_added] in *. lia.
Qed.

(** The observed values of [n_rows] never go below the starting value
    and never decrease. *)
Lemma observed_n_rows_lower (n : Z) cs (i : nat) (x : Z) :
  observed_n_rows n cs !! i = Some x → n ≤ x.
Proof.
  revert n i. induction cs as [|c cs IH]; intros n i Hx; [done|].
  destruct c; cbn in Hx; try (by eapply IH).
  - destruct i as [|i]; cbn in Hx; [injection Hx as <-; lia | by eapply IH].
  - apply IH in Hx. lia.
Qed.

Lemma observed_n_rows_non_decreasing (n : Z) cs :
  non_decreasing (observed_n_rows n cs).
Proof.
  revert n. induction cs as [|c cs IH]; intros n i j x y Hij Hx Hy; [done|].
  destruct c; cbn in Hx, Hy; try (by eapply IH).
  destruct i as [|i], j as [|j]; cbn in Hx, Hy.
  - simplify_eq. lia.
  - injection Hx as <-. by eapply observed_n_rows_lower.
  - lia.
  - eapply (IH n i j); [lia|done..].
Qed.

End Invariants.

Lemma outcome_rel_bind {A A' B B' : Type} (P : A → A' → Prop) (Q : B → B' → Prop)
    (m1 : outcome A) (m2 : outcome A') (f1 : A → outcome B) (f2 : A' → outcome B') :
  outcome_rel P m1 m2 →
  (∀ a a', P a a' → outcome_rel Q (f1 a) (f2 a')) →
  outcome_rel Q (m1 ≫= f1) (m2 ≫= f2).
Proof. intros Hm Hf. destruct m1, m2; cbn in *; auto; done. Qed.

(** ** The stream does not influence the recorded data

    Nothing in the class reads the state of [outfile]: two recorders with
    the same data go through the same calls in the same way, whatever
    their streams are.  [R] is any relation between streams that
    insertions keep. *)

Section StreamIndependence.

Context `{Streamable} {Ts : list ty}.
Implicit Types (s : FrameLogger Ts) (c : call Ts) (cs : list (call Ts)).

Variable R : ofstream.t → ofstream.t → Prop.
Hypothesis R_insert : ∀ o1 o2 x, R o1 o2 → R (ofstream.insert o1 x) (ofstream.insert o2 x).

Lemma write_tuple_impl_rel (Us : list ty) (row : tuple Us) o1 o2 :
  R o1 o2 → R (write_tuple_impl Us row o1) (write_tuple_impl Us row o2).
Proof. revert row o1 o2. induction Us as [|U Us IH]; intros row o1 o2 HR; cbn; auto. Qed.

Lemma insert_all_rel (ts : list token) o1 o2 :
  R o1 o2 → R (insert_all o1 ts) (insert_all o2 ts).
Proof.
  revert o1 o2. induction ts as [|tk ts IH]; intros o1 o2 HR; cbn; [done|].
  apply IH. auto.
Qed.

Lemma write_indices_rel (n : nat) (ri : Z) (v : list Z) o1 o2 :
  R o1 o2 → outcome_rel R (write_indices n ri v o1) (write_indices n ri v o2).
Proof.
  revert ri o1 o2. induction n as [|n IH]; intros ri o1 o2 HR; cbn; [done|].
  destruct (vector.read v ri) as [x| |]; cbn; auto.
Qed.

Lemma write_frames_rel (n : nat) (i : Z) (v : list (tuple Ts)) o1 o2 :
  R o1 o2 → outcome_rel R (write_frames Ts n i v o1) (write_frames Ts n i v o2).
Proof.
  revert i o1 o2. induction n as [|n IH]; intros i o1 o2 HR; cbn; [done|].
  destruct (vector.read v i) as [row| |]; cbn; [|done..].
  apply IH. unfold ofstream.endl. auto using write_tuple_impl_rel.
Qed.

Lemma write_rel s1 s2 :
  related R s1 s2 → outcome_rel (related R) (write s1) (write s2).
Proof.
  intros [(Hi & Hc & Hli & Hlf & Hw & Hh) HR]. unfold write, ofstream.endl.
  rewrite Hi, Hli, Hc, Hlf, Hh.
  eapply outcome_rel_bind; [apply write_indices_rel; auto|].
  intros o1 o2 HR1.
  eapply outcome_rel_bind; [apply write_frames_rel; auto 10|].
  intros o1' o2' HR2. by repeat split.
Qed.

Lemma do_call_rel s1 s2 c :
  related R s1 s2 → outcome_rel (related R) (do_call s1 c) (do_call s2 c).
Proof.
  intros Hrel. pose proof Hrel as [(Hi & Hc & Hli & Hlf & Hw & Hh) HR].
  destruct c as [|info_in|ts|ts|h|]; cbn.
  - unfold start_new_trial. rewrite Hi, Hli, Hlf.
    destruct (vector.store _ _ _); cbn; [|done..]. by repeat split.
  - unfold add_frame. rewrite Hc, Hlf.
    destruct (vector.store _ _ _); cbn; [|done..]. by repeat split.
  - split; [done|]. cbn. unfold ofstream.endl. auto using insert_all_rel.
  - split; [done|]. cbn. auto using insert_all_rel.
  - by repeat split.
  - by apply write_rel.
Qed.

Lemma run_rel cs s1 s2 :
  related R s1 s2 → outcome_rel (related R) (run s1 cs) (run s2 cs).
Proof.
  revert s1 s2. induction cs as [|c cs IH]; intros s1 s2 Hrel; cbn; [done|].
  eapply outcome_rel_bind; [by apply do_call_rel|]. auto.
Qed.

End StreamIndependence.

Lemma unwritten_insert (o : ofstream.t) (x : string) :
  unwritten o → unwritten (ofstream.insert o x).
Proof.
  intros [Hg Hf]. rewrite insert_not_good by done. split; [|done].
  unfold ofstream.good. cbn. apply andb_false_r.
Qed.

(** ** The member functions, claim by claim *)

Section Claims.

Context `{Streamable} {Ts : list ty}.
Implicit Types (s : FrameLogger Ts) (c : call Ts) (cs : list (call Ts)).
Variable tuple_init : tuple Ts.

(** C1, amended.  Neither [add_frame] nor [start_new_trial] checks the
    capacity, and neither ever throws.  On a recorder within capacity,
    [add_frame] returns exactly when [n_rows < F]; the recorded rows are
    then the old ones followed by the new row, and the recorded indices
    are untouched.  [start_new_trial] returns exactly when [n_idx < T];
    the recorded indices are then the old ones followed by [n_rows], and
    the recorded rows are untouched.  At [n_rows = F] (resp. [n_idx = T])
    the assignment is out of the vector's range: undefined behaviour, not
    a reported error. *)
Theorem capacity_is_not_checked s (info_in : tuple Ts) :
  within_capacity s →
  match add_frame s info_in with
  | Returns s' =>
      last_frame s < Z.of_nat (length (m_content s)) ∧
      stored_rows s' = stored_rows s ++ [info_in] ∧
      last_frame s' = last_frame s + 1 ∧
      stored_indices s' = stored_indices s ∧ last_index s' = last_index s
  | Throws _ => False
  | Undefined => last_frame s = Z.of_nat (length (m_content s))
  end ∧
  match start_new_trial s with
  | Returns s' =>
      last_index s < Z.of_nat (length (m_index s)) ∧
      stored_indices s' = stored_indices s ++ [last_frame s] ∧
      last_index s' = last_index s + 1 ∧
      stored_rows s' = stored_rows s ∧ last_frame s' = last_frame s
  | Throws _ => False
  | Undefined => last_index s = Z.of_nat (length (m_index s))
  end.
Proof.
  intros [[Hi0 Hi1] [Hf0 Hf1]]. split.
  - destruct (decide (last_frame s < Z.of_nat (length (m_content s)))) as [Hlt|Hge].
    + rewrite add_frame_in_range by lia. unfold stored_rows, stored_indices. cbn.
      rewrite take_store by lia. by repeat split.
    + unfold add_frame. rewrite store_out_of_range by lia. cbn. lia.
  - destruct (decide (last_index s < Z.of_nat (length (m_index s)))) as [Hlt|Hge].
    + rewrite start_new_trial_in_range by lia. unfold stored_rows, stored_indices. cbn.
      rewrite take_store by lia. by repeat split.
    + unfold start_new_trial. rewrite store_out_of_range by lia. cbn. lia.
Qed.

(** C2, amended.  The one-shot guard is read by the destructor only.
    Once [write()] has returned, [log_written] is set and the destructor
    just closes the stream: the file after [write()] followed by the end
    of the recorder's life is the file after [write()] alone.  [write()]
    itself does not read the guard: a second explicit call inserts the
    same serialization again. *)
Theorem destructor_does_not_write_twice s :
  within_capacity s →
  ∃ s1 s2,
    write s = Returns s1 ∧ log_written s1 = true ∧
    dtor s1 = Returns (ofstream.close (outfile s1)) ∧
    ofstream.file (ofstream.close (outfile s1)) = ofstream.file (outfile s1) ∧
    write s1 = Returns s2 ∧
    outfile s2 = ofstream.insert (outfile s1) (serialization s).
Proof.
  intros Hwf. eexists _, _. split; [by apply write_within_capacity|].
  split; [done|]. split; [done|]. split.
  - cbn. unfold ofstream.close. by destruct (ofstream.is_open _).
  - split; [by apply write_within_capacity|]. done.
Qed.

(** C3.  A recorder whose file opened, taken through any calls other than
    [write()]: its destructor calls [write()] and then closes the stream,
    so the closed file ends with the serialization of the indices and
    rows recorded so far. *)
Theorem destructor_writes_unwritten_log (T F : Z) cs s0 s :
  ctor Ts tuple_init T F true = Returns s0 →
  run s0 cs = Returns s →
  forallb (fun c => negb (is_write c)) cs = true →
  ∃ o, dtor s = Returns o ∧ ofstream.is_open o = false ∧
       ofstream.file o = ofstream.file (outfile s) +:+ serialization s.
Proof.
  intros Hctor Hrun Hnow.
  destruct (ctor_fresh _ _ _ _ _ Hctor) as (Hwf0 & _ & _ & _ & _ & Hlog0 & _ & Hout0).
  destruct (run_steps _ _ _ Hwf0 Hrun) as (Hwf & _ & _ & _ & _ & _ & Hg & Hlog).
  specialize (Hg ltac:(by rewrite Hout0)). specialize (Hlog Hnow).
  unfold dtor. rewrite Hlog, Hlog0, write_within_capacity by done. cbn.
  eexists. split; [done|].
  rewrite insert_good by done. unfold ofstream.close. cbn.
  by destruct (ofstream.is_open (outfile s)).
Qed.

(** C4.  On a recorder within capacity whose stream is good, [write()]
    returns and appends to the file, in this order: the line
    "trial index:"; the recorded indices, each followed by a tab, and a
    line terminator; an empty line; "fr_nr", a tab, the headline and a
    line terminator; and for each recorded row [i] its number [i], then
    for each field a tab and the field's text, then a line terminator.
    Nothing follows the last row line. *)
Theorem write_format s :
  within_capacity s → ofstream.good (outfile s) = true →
  ∃ s', write s = Returns s' ∧
    ofstream.file (outfile s') =
      ofstream.file (outfile s) +:+
      "trial index:" +:+ newline +:+
      index_line (stored_indices s) +:+ newline +:+
      newline +:+
      "fr_nr" +:+ tab +:+ headline s +:+ newline +:+
      row_lines 0 (stored_rows s).
Proof.
  intros Hwf Hg. eexists. split; [by apply write_within_capacity|].
  cbn. by rewrite insert_file_good.
Qed.

(** C5.  On a recorder reached from construction with [n_idx < T],
    [start_new_trial] returns and appends the current [n_rows] to the
    recorded indices.  [n_rows] is the number of [add_frame] calls made so
    far, hence 0 before any.  A second call right after the first, when
    it is still within capacity, returns as well and records the same
    value again. *)
Theorem start_new_trial_records_n_rows (T F : Z) (writable : bool) cs s0 s :
  ctor Ts tuple_init T F writable = Returns s0 →
  run s0 cs = Returns s →
  last_index s < T →
  ∃ s1, start_new_trial s = Returns s1 ∧
    stored_indices s1 = stored_indices s ++ [last_frame s] ∧
    last_index s1 = last_index s + 1 ∧
    last_frame s1 = last_frame s ∧
    last_frame s = frames_added cs ∧
    match start_new_trial s1 with
    | Returns s2 =>
        stored_indices s2 = stored_indices s ++ [last_frame s; last_frame s]
    | Throws _ => False
    | Undefined => last_index s1 = T
    end.
Proof.
  intros Hctor Hrun Hlt.
  destruct (ctor_fresh _ _ _ _ _ Hctor) as (Hwf0 & HT & _ & _ & Hfr0 & _).
  destruct (run_steps _ _ _ Hwf0 Hrun) as (Hwf & Hlen & _ & _ & Hfr & _).
  pose proof Hwf as [[Hi0 Hi1] _].
  assert (Z.of_nat (length (m_index s)) = T) as HlenT by (rewrite Hlen; done).
  eexists. split; [apply start_new_trial_in_range; lia|].
  unfold stored_indices. cbn. rewrite take_store by lia.
  split; [done|]. split; [done|]. split; [done|]. split; [lia|].
  destruct (decide (last_index s + 1 < T)) as [Hlt2|Hge2].
  - rewrite start_new_trial_in_range by (cbn; rewrite length_insert; lia). cbn.
    rewrite take_store by (rewrite length_insert; lia).
    rewrite take_store by lia. by rewrite <- app_assoc.
  - unfold start_new_trial. rewrite store_out_of_range by (cbn; rewrite length_insert; lia).
    cbn. lia.
Qed.

(** C6.  A call sequence on a constructed recorder that respects the
    capacities (at most [T] calls of [start_new_trial], at most [F] calls of
    [add_frame]) returns; the recorded indices are then exactly the values
    [n_rows] had at the successive [start_new_trial] calls, in call order,
    and they are non-decreasing. *)
Theorem stored_indices_non_decreasing (T F : Z) (writable : bool) cs s0 :
  ctor Ts tuple_init T F writable = Returns s0 →
  trials_started cs ≤ T →
  frames_added cs ≤ F →
  ∃ s, run s0 cs = Returns s ∧
    stored_indices s = observed_n_rows 0 cs ∧ non_decreasing (stored_indices s).
Proof.
  intros Hctor Htr Hfr.
  destruct (ctor_fresh _ _ _ _ _ Hctor) as (Hwf0 & HT & HF & Hi0 & Hfr0 & _).
  destruct (run_returns cs s0) as [s Hrun]; [done|lia..|].
  destruct (run_steps _ _ _ Hwf0 Hrun) as (_ & _ & _ & Hidx & _).
  exists s. split; [done|].
  assert (stored_indices s = observed_n_rows 0 cs) as ->.
  { rewrite Hidx, Hfr0. unfold stored_indices. by rewrite Hi0. }
  split; [done|]. apply observed_n_rows_non_decreasing.
Qed.

(** C7, amended.  When the file cannot be opened, the constructor still
    returns a recorder and no error reaches the caller: the failure only
    shows in the fail state of the stream.  The recorder stays usable:
    every call sequence ends the same way and leaves the same recorded
    data as on a recorder whose file opened, while the file receives
    nothing. *)
Theorem failed_open_is_not_reported (T F : Z) cs :
  0 ≤ T → 0 ≤ F →
  ∃ s0 s0',
    ctor Ts tuple_init T F false = Returns s0 ∧
    ctor Ts tuple_init T F true = Returns s0' ∧
    ofstream.fail (outfile s0) = true ∧
    outcome_rel (fun s s' => same_data s s' ∧ unwritten (outfile s))
      (run s0 cs) (run s0' cs).
Proof.
  intros HT HF. eexists _, _.
  split; [by apply ctor_returns|]. split; [by apply ctor_returns|].
  split; [done|].
  apply (run_rel (fun o _ => unwritten o)).
  - intros o1 _ x. apply unwritten_insert.
  - by repeat split.
Qed.

(** C8.  On a good stream, [add_line] appends the text of its tokens, one
    after the other with nothing in between, and then one line
    terminator; [add_word] appends the same text and no terminator.  A
    sequence of such calls appends the texts of its calls in call order. *)
Theorem add_line_add_word_text s (ts : list token) cs :
  ofstream.good (outfile s) = true →
  forallb is_raw cs = true →
  ofstream.file (outfile (add_line s ts)) =
    ofstream.file (outfile s) +:+ join (map token_text ts) +:+ newline ∧
  ofstream.file (outfile (add_word s ts)) =
    ofstream.file (outfile s) +:+ join (map token_text ts) ∧
  ∃ s', run s cs = Returns s' ∧
    ofstream.file (outfile s') = ofstream.file (outfile s) +:+ join (map raw_text cs).
Proof.
  intros Hg Hraw. split; [|split].
  - cbn. unfold ofstream.endl.
    destruct (insert_all_good (outfile s) ts Hg) as [Hg' Hf'].
    rewrite insert_file_good, Hf' by done. by rewrite string_app_assoc.
  - cbn. by apply insert_all_good.
  - revert s Hg Hraw. induction cs as [|c cs IH]; intros s Hg Hraw.
    + eexists. split; [done|]. cbn. by rewrite string_app_nil_r.
    + cbn [forallb] in Hraw. apply andb_true_iff in Hraw as [Hc Hcs].
      destruct (insert_all_good (outfile s)) with (ts := match c with
        | AddLine ts | AddWord ts => ts | _ => [] end) as [Hg' Hf']; [done|].
      destruct c as [|info_in|ts'|ts'|h|]; try done; cbn [run do_call].
      * destruct (IH (add_line s ts')) as (s' & Hrun & Hfile); [|done|].
        { cbn. by apply insert_keeps_good. }
        exists s'. split; [done|]. rewrite Hfile. cbn. unfold ofstream.endl.
        rewrite insert_file_good, Hf' by done. by rewrite !string_app_assoc.
      * destruct (IH (add_word s ts')) as (s' & Hrun & Hfile); [done..|].
        exists s'. split; [done|]. rewrite Hfile. cbn.
        rewrite Hf'. by rewrite !string_app_assoc.
Qed.

(** C9.  [add_line] and [add_word] change nothing but the stream: the
    vectors, both counters, the headline and [log_written] are as before,
    and the file is the old file with something appended. *)
Theorem raw_calls_only_touch_stream s (ts : list token) :
  (same_data s (add_line s ts) ∧
   ∃ suffix, ofstream.file (outfile (add_line s ts)) = ofstream.file (outfile s) +:+ suffix) ∧
  (same_data s (add_word s ts) ∧
   ∃ suffix, ofstream.file (outfile (add_word s ts)) = ofstream.file (outfile s) +:+ suffix).
Proof.
  split; (split; [by repeat split|]); cbn.
  - destruct (insert_all_appends (outfile s) ts) as [a Ha].
    destruct (insert_appends (insert_all (outfile s) ts) newline) as [b Hb].
    exists (a +:+ b). unfold ofstream.endl. by rewrite Hb, Ha, string_app_assoc.
  - apply insert_all_appends.
Qed.

(** C10.  On a recorder within capacity [write()] returns, and the
    recorder it leaves has the same two vectors, the same counters and
    the same headline; [log_written] is true. *)
Theorem write_keeps_recorded_data s :
  within_capacity s →
  ∃ s', write s = Returns s' ∧
    m_index s' = m_index s ∧ m_content s' = m_content s ∧
    last_index s' = last_index s ∧ last_frame s' = last_frame s ∧
    headline s' = headline s ∧
    stored_indices s' = stored_indices s ∧ stored_rows s' = stored_rows s ∧
    log_written s' = true.
Proof.
  intros Hwf. eexists. split; [by apply write_within_capacity|]. by repeat split.
Qed.

End Claims.

(** ** The claims on concrete recorders *)

Lemma fresh_recorder_within_capacity : within_capacity fresh_recorder.
Proof. unfold within_capacity. cbn. lia. Defined.

Lemma fresh_recorder_constructed :
  ctor scenario_schema scenario_init 2 5 true = Returns fresh_recorder.
Proof. reflexivity. Defined.

(** The scenario of the specification: [T = 2], [F = 5], one trial of three
    frames and one of two. *)
Lemma scenario_run : run fresh_recorder scenario_calls = Returns scenario_recorder.
Proof. vm_compute. reflexivity. Defined.

Example scenario_file :
    ofstream.file (outfile scenario_recorder) =
      "trial index:" +:+ newline +:+
      "0" +:+ tab +:+ "3" +:+ tab +:+ newline +:+
      newline +:+
      "fr_nr" +:+ tab +:+ newline +:+
      "0" +:+ tab +:+ "1" +:+ tab +:+ "a" +:+ newline +:+
      "1" +:+ tab +:+ "1" +:+ tab +:+ "a" +:+ newline +:+
      "2" +:+ tab +:+ "1" +:+ tab +:+ "a" +:+ newline +:+
      "3" +:+ tab +:+ "4" +:+ tab +:+ "b" +:+ newline +:+
      "4" +:+ tab +:+ "4" +:+ tab +:+ "b" +:+ newline.
Proof. vm_compute. reflexivity. Qed.

(** C1 as stated fails: on a full recorder neither call signals
    [CapacityExceeded]; both run into the unchecked vector assignment. *)
Lemma calls_at_capacity_signal_nothing :
  (s0 ← ctor scenario_schema scenario_init 1 1 true;
   run s0 [StartNewTrial; AddFrame (scenario_frame 1 "a")]) = Returns full_recorder ∧
  last_frame full_recorder = Z.of_nat (length (m_content full_recorder)) ∧
  last_index full_recorder = Z.of_nat (length (m_index full_recorder)) ∧
  add_frame full_recorder (scenario_frame 2 "b") = Undefined ∧
  start_new_trial full_recorder = Undefined ∧
  add_frame full_recorder (scenario_frame 2 "b") ≠ Throws CapacityExceeded ∧
  start_new_trial full_recorder ≠ Throws CapacityExceeded.
Proof. repeat split; (discriminate || (vm_compute; reflexivity)). Qed.

Lemma capacity_is_not_checked_witness :
  within_capacity fresh_recorder ∧
  ∃ s1 s2,
    add_frame fresh_recorder (scenario_frame 1 "a") = Returns s1 ∧
    stored_rows s1 = [scenario_frame 1 "a"] ∧
    start_new_trial fresh_recorder = Returns s2 ∧
    stored_indices s2 = [0].
Proof.
  split; [exact fresh_recorder_within_capacity|].
  pose proof (capacity_is_not_checked fresh_recorder (scenario_frame 1 "a")
                fresh_recorder_within_capacity) as [Hadd Hstart].
  eexists _, _. split; [reflexivity|]. split; [exact (proj1 (proj2 Hadd))|].
  split; [reflexivity|]. exact (proj1 (proj2 Hstart)).
Defined.

(** C2 as stated fails: a second explicit [write()] appends the whole
    serialization once more, although [log_written] is already set. *)
Lemma second_write_writes_again :
  ∃ s1 s2,
    write fresh_recorder = Returns s1 ∧ log_written s1 = true ∧
    write s1 = Returns s2 ∧
    ofstream.file (outfile s2) =
      ofstream.file (outfile s1) +:+ ofstream.file (outfile s1) ∧
    ofstream.file (outfile s2) ≠ ofstream.file (outfile s1).
Proof.
  eexists _, _. split; [vm_compute; reflexivity|]. split; [reflexivity|].
  split; [vm_compute; reflexivity|]. split; [vm_compute; reflexivity|].
  vm_compute. discriminate.
Qed.

Lemma destructor_does_not_write_twice_witness :
  within_capacity fresh_recorder ∧
  ∃ s1, write fresh_recorder = Returns s1 ∧
    dtor s1 = Returns (ofstream.close (outfile s1)) ∧
    ofstream.file (ofstream.close (outfile s1)) = ofstream.file (outfile s1).
Proof.
  split; [exact fresh_recorder_within_capacity|].
  destruct (destructor_does_not_write_twice fresh_recorder fresh_recorder_within_capacity)
    as (s1 & s2 & Hw & Hlog & Hd & Hf & _).
  exists s1. auto.
Defined.

Lemma destructor_writes_unwritten_log_witness :
  ∃ s o,
    run fresh_recorder [StartNewTrial; AddFrame (scenario_frame 1 "a")] = Returns s ∧
    dtor s = Returns o ∧ ofstream.is_open o = false ∧
    ofstream.file o =
      "trial index:" +:+ newline +:+ "0" +:+ tab +:+ newline +:+ newline +:+
      "fr_nr" +:+ tab +:+ newline +:+
      "0" +:+ tab +:+ "1" +:+ tab +:+ "a" +:+ newline.
Proof.
  eexists.
  edestruct (destructor_writes_unwritten_log scenario_init 2 5
              [StartNewTrial; AddFrame (scenario_frame 1 "a")] fresh_recorder)
    as (o & Hd & Hopen & Hfile); [reflexivity..|].
  exists o. split; [reflexivity|]. split; [exact Hd|]. split; [exact Hopen|].
  rewrite Hfile. reflexivity.
Defined.

Lemma filled_recorder_reached :
  run fresh_recorder filled_calls = Returns filled_recorder.
Proof. vm_compute. reflexivity. Defined.

Lemma filled_recorder_within_capacity : within_capacity filled_recorder.
Proof. unfold within_capacity. cbn. lia. Defined.

(** [write()] on a recorder holding two indices, five rows (one with a
    negative field) and a headline, and on the recorder fresh from
    construction (no index, no row, headline never set). *)
Lemma write_format_witness :
  (within_capacity filled_recorder ∧ ofstream.good (outfile filled_recorder) = true ∧
   ∃ s', write filled_recorder = Returns s' ∧
     ofstream.file (outfile s') =
       "trial index:" +:+ newline +:+
       "0" +:+ tab +:+ "3" +:+ tab +:+ newline +:+
       newline +:+
       "fr_nr" +:+ tab +:+ "count" +:+ newline +:+
       "0" +:+ tab +:+ "1" +:+ tab +:+ "a" +:+ newline +:+
       "1" +:+ tab +:+ "1" +:+ tab +:+ "a" +:+ newline +:+
       "2" +:+ tab +:+ "1" +:+ tab +:+ "a" +:+ newline +:+
       "3" +:+ tab +:+ "-7" +:+ tab +:+ "b" +:+ newline +:+
       "4" +:+ tab +:+ "4" +:+ tab +:+ "b" +:+ newline) ∧
  (within_capacity fresh_recorder ∧ ofstream.good (outfile fresh_recorder) = true ∧
   ∃ s', write fresh_recorder = Returns s' ∧
     ofstream.file (outfile s') =
       "trial index:" +:+ newline +:+ newline +:+ newline +:+ "fr_nr" +:+ tab +:+ newline).
Proof.
  split.
  - split; [exact filled_recorder_within_capacity|]. split; [reflexivity|].
    destruct (write_format filled_recorder filled_recorder_within_capacity eq_refl)
      as (s' & Hw & Hfile).
    exists s'. split; [exact Hw|]. rewrite Hfile. vm_compute. reflexivity.
  - split; [exact fresh_recorder_within_capacity|]. split; [reflexivity|].
    destruct (write_format fresh_recorder fresh_recorder_within_capacity eq_refl)
      as (s' & Hw & Hfile).
    exists s'. split; [exact Hw|]. rewrite Hfile. reflexivity.
Defined.

Lemma start_new_trial_records_n_rows_witness :
  ∃ s1, start_new_trial fresh_recorder = Returns s1 ∧
    stored_indices s1 = [0] ∧
    ∃ s2, start_new_trial s1 = Returns s2 ∧ stored_indices s2 = [0; 0].
Proof.
  destruct (start_new_trial_records_n_rows scenario_init 2 5 true []
              fresh_recorder fresh_recorder eq_refl eq_refl ltac:(cbn; lia))
    as (s1 & Hs1 & Hidx & _ & _ & _ & Hs2).
  exists s1. split; [exact Hs1|]. split; [exact Hidx|].
  injection Hs1 as <-. eexists. split; [reflexivity|]. exact Hs2.
Defined.

Lemma stored_indices_non_decreasing_witness :
  trials_started scenario_calls ≤ 2 ∧ frames_added scenario_calls ≤ 5 ∧
  ∃ s, run fresh_recorder scenario_calls = Returns s ∧
    stored_indices s = [0; 3] ∧ non_decreasing (stored_indices s).
Proof.
  assert (trials_started scenario_calls ≤ 2) as Htr by (cbn; lia).
  assert (frames_added scenario_calls ≤ 5) as Hfr by (cbn; lia).
  split; [exact Htr|]. split; [exact Hfr|].
  exact (stored_indices_non_decreasing scenario_init 2 5 true scenario_calls
           fresh_recorder fresh_recorder_constructed Htr Hfr).
Defined.

(** C7 as stated fails: with a file that cannot be opened the constructor
    returns normally, and the recorder it returns takes the whole scenario
    like any other. *)
Lemma recorder_usable_after_failed_open :
  ∃ s0 s,
    ctor scenario_schema scenario_init 2 5 false = Returns s0 ∧
    ctor scenario_schema scenario_init 2 5 false ≠ Throws ConstructionError ∧
    run s0 scenario_calls = Returns s ∧
    stored_indices s = [0; 3] ∧ last_frame s = 5 ∧ log_written s = true.
Proof.
  eexists _, _. split; [vm_compute; reflexivity|]. split; [discriminate|].
  split; [vm_compute; reflexivity|]. repeat split.
Qed.

Lemma failed_open_is_not_reported_witness :
  0 ≤ 2 ∧ 0 ≤ 5 ∧
  ∃ s0 s0',
    ctor scenario_schema scenario_init 2 5 false = Returns s0 ∧
    ctor scenario_schema scenario_init 2 5 true = Returns s0' ∧
    ofstream.fail (outfile s0) = true ∧
    outcome_rel (fun s s' => same_data s s' ∧ unwritten (outfile s))
      (run s0 scenario_calls) (run s0' scenario_calls).
Proof.
  split; [lia|]. split; [lia|].
  exact (failed_open_is_not_reported scenario_init 2 5 scenario_calls
           ltac:(lia) ltac:(lia)).
Defined.

(** The example of the specification: [add_line("x", 1)], [add_word("y")],
    [add_word("z")] leave the line [x1] with its terminator, then [yz]
    without one. *)
Lemma add_line_add_word_text_witness :
  ofstream.good (outfile fresh_recorder) = true ∧
  forallb is_raw raw_calls = true ∧
  ∃ s', run fresh_recorder raw_calls = Returns s' ∧
    ofstream.file (outfile s') = "x1" +:+ newline +:+ "yz".
Proof.
  split; [reflexivity|]. split; [reflexivity|].
  destruct (add_line_add_word_text fresh_recorder [] raw_calls eq_refl eq_refl)
    as (_ & _ & s' & Hrun & Hfile).
  exists s'. split; [exact Hrun|]. rewrite Hfile. reflexivity.
Defined.

Lemma write_keeps_recorded_data_witness :
  within_capacity fresh_recorder ∧
  ∃ s', write fresh_recorder = Returns s' ∧
    m_index s' = m_index fresh_recorder ∧ m_content s' = m_content fresh_recorder ∧
    log_written s' = true.
Proof.
  split; [exact fresh_recorder_within_capacity|].
  destruct (write_keeps_recorded_data fresh_recorder fresh_recorder_within_capacity)
    as (s' & Hw & Hi & Hc & _ & _ & _ & _ & _ & Hlog).
  exists s'. auto.
Defined.


(** ** Call sequences as a whole *)

Section CallSequences.

Context `{Streamable} {Ts : list ty}.
Implicit Types (s : FrameLogger Ts) (c : call Ts) (cs : list (call Ts)).
Variable tuple_init : tuple Ts.

Lemma frames_of_cons c cs : frames_of (c :: cs) = frames_of [c] ++ frames_of cs.
Proof. by destruct c. Qed.

Lemma last_headline_cons (h : string) c cs :
  last_headline h (c :: cs) = last_headline (last_headline h [c]) cs.
Proof. by destruct c. Qed.

(** What one call that returns does to the rows, the headline, the guard
    and the file. *)
Lemma do_call_data s c s' :
  within_capacity s → do_call s c = Returns s' →
  stored_rows s' = stored_rows s ++ frames_of [c] ∧
  headline s' = last_headline (headline s) [c] ∧
  log_written s' = log_written s || is_write c ∧
  (ofstream.good (outfile s) = true → is_write c = false →
   ofstream.file (outfile s') = ofstream.file (outfile s) +:+ raw_text c).
Proof.
  intros Hwf Hc. pose proof Hwf as [[Hi0 Hi1] [Hf0 Hf1]].
  destruct c as [|info_in|ts|ts|h|]; cbn in Hc.
  - apply start_new_trial_inv in Hc as [Hr ->]. unfold stored_rows. cbn.
    rewrite app_nil_r, orb_false_r, string_app_nil_r. by repeat split.
  - apply add_frame_inv in Hc as [Hr ->]. unfold stored_rows. cbn.
    rewrite take_store, orb_false_r, string_app_nil_r by done. by repeat split.
  - injection Hc as <-. unfold stored_rows. cbn.
    rewrite app_nil_r, orb_false_r. repeat split. intros Hg _.
    destruct (insert_all_good (outfile s) ts Hg) as [Hg' Hf'].
    unfold ofstream.endl. rewrite insert_file_good, Hf' by done.
    by rewrite string_app_assoc.
  - injection Hc as <-. unfold stored_rows. cbn.
    rewrite app_nil_r, orb_false_r. repeat split. intros Hg _.
    by apply insert_all_good.
  - injection Hc as <-. unfold stored_rows. cbn.
    rewrite app_nil_r, orb_false_r, string_app_nil_r. by repeat split.
  - rewrite write_within_capacity in Hc by done. injection Hc as <-.
    unfold stored_rows. cbn. rewrite app_nil_r, orb_true_r. by repeat split.
Qed.

(** What a call sequence that returns does to the rows, the headline, the
    guard and the file. *)
Lemma run_data cs s s' :
  within_capacity s → run s cs = Returns s' →
  stored_rows s' = stored_rows s ++ frames_of cs ∧
  headline s' = last_headline (headline s) cs ∧
  log_written s' = log_written s || existsb is_write cs ∧
  (ofstream.good (outfile s) = true →
   forallb (fun c => negb (is_write c)) cs = true →
   ofstream.file (outfile s') = ofstream.file (outfile s) +:+ join (map raw_text cs)).
Proof.
  revert s. induction cs as [|c cs IH]; intros s Hwf Hrun.
  - injection Hrun as <-. cbn.
    rewrite app_nil_r, orb_false_r, string_app_nil_r. by repeat split.
  - cbn [run] in Hrun. destruct (do_call s c) as [s1| |] eqn:Hc; try done.
    cbn in Hrun.
    destruct (do_call_step _ _ _ Hwf Hc) as (Hwf1 & _ & _ & _ & _ & _ & Hg1 & _).
    destruct (do_call_data _ _ _ Hwf Hc) as (Hrows & Hh & Hlog & Hfile).
    destruct (IH _ Hwf1 Hrun) as (Hrows' & Hh' & Hlog' & Hfile').
    split; [|split; [|split]].
    + rewrite Hrows', Hrows, (frames_of_cons c cs). by rewrite <- app_assoc.
    + by rewrite Hh', Hh, (last_headline_cons _ c cs).
    + rewrite Hlog', Hlog. cbn [existsb]. by rewrite orb_assoc.
    + cbn [forallb]. intros Hg [Hc1 Hcs]%andb_true_iff.
      apply negb_true_iff in Hc1.
      rewrite Hfile', Hfile by auto. cbn [map join]. by rewrite string_app_assoc.
Qed.

(** How one call ends on a recorder within capacity. *)
Lemma do_call_outcome s c :
  within_capacity s →
  match do_call s c with
  | Returns _ =>
      last_index s + trials_started [c] ≤ Z.of_nat (length (m_index s)) ∧
      last_frame s + frames_added [c] ≤ Z.of_nat (length (m_content s))
  | Throws _ => False
  | Undefined =>
      Z.of_nat (length (m_index s)) < last_index s + trials_started [c] ∨
      Z.of_nat (length (m_content s)) < last_frame s + frames_added [c]
  end.
Proof.
  intros Hwf. pose proof Hwf as [[Hi0 Hi1] [Hf0 Hf1]].
  destruct c as [|info_in|ts|ts|h|]; cbn; try lia.
  - destruct (decide (last_index s < Z.of_nat (length (m_index s)))).
    + rewrite start_new_trial_in_range by lia. lia.
    + unfold start_new_trial. rewrite store_out_of_range by lia. cbn. lia.
  - destruct (decide (last_frame s < Z.of_nat (length (m_content s)))).
    + rewrite add_frame_in_range by lia. lia.
    + unfold add_frame. rewrite store_out_of_range by lia. cbn. lia.
  - rewrite write_within_capacity by done. lia.
Qed.

(** How a call sequence ends on a recorder within capacity. *)
Lemma run_outcome cs s :
  within_capacity s →
  match run s cs with
  | Returns _ =>
      last_index s + trials_started cs ≤ Z.of_nat (length (m_index s)) ∧
      last_frame s + frames_added cs ≤ Z.of_nat (length (m_content s))
  | Throws _ => False
  | Undefined =>
      Z.of_nat (length (m_index s)) < last_index s + trials_started cs ∨
      Z.of_nat (length (m_content s)) < last_frame s + frames_added cs
  end.
Proof.
  revert s. induction cs as [|c cs IH]; intros s Hwf.
  - destruct Hwf as [[Hi0 Hi1] [Hf0 Hf1]]. cbn. lia.
  - pose proof (do_call_outcome s c Hwf) as Hc.
    pose proof (frames_added_nonneg cs). pose proof (trials_started_nonneg cs).
    cbn [run]. destruct (do_call s c) as [s1| |] eqn:Hcall; cbn; [|done|].
    + destruct (do_call_step _ _ _ Hwf Hcall) as (Hwf1 & Hli & Hlc & _ & Hfr & Htr & _).
      specialize (IH s1 Hwf1). rewrite Hli, Hlc, Hfr, Htr in IH.
      cbn [trials_started frames_added] in *.
      destruct (run s1 cs); [lia|done|lia].
    + cbn [trials_started frames_added] in *. lia.
Qed.

(** Frames added in a row, followed by other calls. *)
Lemma add_frames_then (rows : list (tuple Ts)) cs (n : Z) :
  trials_started (map AddFrame rows ++ cs) = trials_started cs ∧
  frames_added (map AddFrame rows ++ cs) = Z.of_nat (length rows) + frames_added cs ∧
  observed_n_rows n (map AddFrame rows ++ cs) =
    observed_n_rows (n + Z.of_nat (length rows)) cs ∧
  frames_of (map AddFrame rows ++ cs) = rows ++ frames_of cs.
Proof.
  revert n. induction rows as [|row rows IH]; intros n; cbn.
  - by rewrite Z.add_0_r.
  - destruct (IH (n + 1)) as (-> & -> & -> & ->).
    repeat split; (lia || f_equal; lia).
Qed.

(** Slots at and after the counters' positions are the ones from
    construction. *)
Lemma do_call_unused s c s' (x : tuple Ts) :
  do_call s c = Returns s' →
  (∀ i : nat, (Z.to_nat (last_frame s) ≤ i)%nat → (i < length (m_content s))%nat →
     m_content s !! i = Some x) ∧
  (∀ i : nat, (Z.to_nat (last_index s) ≤ i)%nat → (i < length (m_index s))%nat →
     m_index s !! i = Some 0) →
  within_capacity s →
  (∀ i : nat, (Z.to_nat (last_frame s') ≤ i)%nat → (i < length (m_content s'))%nat →
     m_content s' !! i = Some x) ∧
  (∀ i : nat, (Z.to_nat (last_index s') ≤ i)%nat → (i < length (m_index s'))%nat →
     m_index s' !! i = Some 0).
Proof.
  intros Hc [Hrows Hidx] Hwf. pose proof Hwf as [[Hi0 Hi1] [Hf0 Hf1]].
  destruct c as [|info_in|ts|ts|h|]; cbn in Hc.
  - apply start_new_trial_inv in Hc as [Hr ->]. cbn. split; [done|].
    intros i Hlo Hhi. rewrite length_insert in Hhi.
    rewrite list_lookup_insert_ne by lia. apply Hidx; lia.
  - apply add_frame_inv in Hc as [Hr ->]. cbn. split; [|done].
    intros i Hlo Hhi. rewrite length_insert in Hhi.
    rewrite list_lookup_insert_ne by lia. apply Hrows; lia.
  - by injection Hc as <-.
  - by injection Hc as <-.
  - by injection Hc as <-.
  - rewrite write_within_capacity in Hc by done. by injection Hc as <-.
Qed.

(** X1.  On a constructed recorder a call sequence returns exactly when it
    holds at most [T] calls of [start_new_trial] and at most [F] calls of
    [add_frame]; otherwise it runs into an out-of-range vector assignment.
    No call sequence ends with an exception. *)
Theorem run_ends_by_capacity (T F : Z) (writable : bool) cs s0 :
  ctor Ts tuple_init T F writable = Returns s0 →
  match run s0 cs with
  | Returns _ => trials_started cs ≤ T ∧ frames_added cs ≤ F
  | Throws _ => False
  | Undefined => T < trials_started cs ∨ F < frames_added cs
  end.
Proof.
  intros Hctor.
  destruct (ctor_fresh _ _ _ _ _ Hctor) as (Hwf0 & HT & HF & Hi0 & Hfr0 & _).
  pose proof (run_outcome cs s0 Hwf0) as Hrun.
  rewrite HT, HF, Hi0, Hfr0 in Hrun.
  destruct (run s0 cs); [lia|done|lia].
Qed.

(** X2.  After any call sequence that returns on a constructed recorder,
    the two vectors still have the sizes [T] and [F] they were given, the
    counter [last_index] is the number of [start_new_trial] calls made and
    [last_frame] the number of [add_frame] calls made, and neither counter
    exceeds its vector's size. *)
Theorem counters_count_calls (T F : Z) (writable : bool) cs s0 s :
  ctor Ts tuple_init T F writable = Returns s0 →
  run s0 cs = Returns s →
  Z.of_nat (length (m_index s)) = T ∧ Z.of_nat (length (m_content s)) = F ∧
  last_index s = trials_started cs ∧ last_frame s = frames_added cs ∧
  0 ≤ last_index s ≤ T ∧ 0 ≤ last_frame s ≤ F.
Proof.
  intros Hctor Hrun.
  destruct (ctor_fresh _ _ _ _ _ Hctor) as (Hwf0 & HT & HF & Hi0 & Hfr0 & _).
  destruct (run_steps _ _ _ Hwf0 Hrun) as ([Hi Hf] & Hli & Hlc & _ & Hfr & Htr & _).
  rewrite Hli, Hlc in *. repeat split; lia.
Qed.

(** X3.  After any call sequence that returns on a constructed recorder,
    the recorded rows are the arguments of the [add_frame] calls, in call
    order: no row is lost, replaced or reordered, whatever other calls
    ([start_new_trial], [add_line], [add_word], [add_headline], [write])
    come in between. *)
Theorem rows_recorded_in_call_order (T F : Z) (writable : bool) cs s0 s :
  ctor Ts tuple_init T F writable = Returns s0 →
  run s0 cs = Returns s →
  stored_rows s = frames_of cs.
Proof.
  intros Hctor Hrun.
  destruct (ctor_fresh _ _ _ _ _ Hctor) as (Hwf0 & _ & _ & _ & Hfr0 & _).
  destruct (run_data _ _ _ Hwf0 Hrun) as (-> & _).
  unfold stored_rows. by rewrite Hfr0.
Qed.

(** X4.  After any call sequence that returns on a constructed recorder,
    the headline is the argument of the last [add_headline] call, and the
    empty string when there was none. *)
Theorem last_headline_wins (T F : Z) (writable : bool) cs s0 s :
  ctor Ts tuple_init T F writable = Returns s0 →
  run s0 cs = Returns s →
  headline s = last_headline "" cs.
Proof.
  intros Hctor Hrun.
  destruct (ctor_fresh _ _ _ _ _ Hctor) as (Hwf0 & _ & _ & _ & _ & _ & Hh0 & _).
  destruct (run_data _ _ _ Hwf0 Hrun) as (_ & -> & _). by rewrite Hh0.
Qed.

(** X5.  Before [write()] only [add_line] and [add_word] reach the file:
    on a good stream, a call sequence without [write()] leaves the old file
    followed by the texts of its [add_line] and [add_word] calls in call
    order; [start_new_trial], [add_frame] and [add_headline] add nothing. *)
Theorem only_raw_calls_reach_file s cs s' :
  within_capacity s →
  ofstream.good (outfile s) = true →
  forallb (fun c => negb (is_write c)) cs = true →
  run s cs = Returns s' →
  ofstream.file (outfile s') = ofstream.file (outfile s) +:+ join (map raw_text cs).
Proof.
  intros Hwf Hg Hnow Hrun.
  destruct (run_data _ _ _ Hwf Hrun) as (_ & _ & _ & Hfile). auto.
Qed.

(** X6.  The file a recorder leaves behind, from its calls alone.  A
    recorder whose file opened, taken through a call sequence without
    [write()] that respects the capacities, and then destroyed: the closed
    file holds the raw texts in call order, followed by one serialization
    whose index line lists the values of [n_rows] at the
    [start_new_trial] calls, whose header carries the last headline, and
    whose rows are the [add_frame] arguments numbered from 0. *)
Theorem file_left_by_calls (T F : Z) cs s0 :
  ctor Ts tuple_init T F true = Returns s0 →
  trials_started cs ≤ T →
  frames_added cs ≤ F →
  forallb (fun c => negb (is_write c)) cs = true →
  ∃ s o, run s0 cs = Returns s ∧ dtor s = Returns o ∧
    ofstream.is_open o = false ∧
    ofstream.file o =
      join (map raw_text cs) +:+
      "trial index:" +:+ newline +:+
      index_line (observed_n_rows 0 cs) +:+ newline +:+
      newline +:+
      "fr_nr" +:+ tab +:+ last_headline "" cs +:+ newline +:+
      row_lines 0 (frames_of cs).
Proof.
  intros Hctor Htr Hfr Hnow.
  destruct (ctor_fresh _ _ _ _ _ Hctor)
    as (Hwf0 & HT & HF & Hi0 & Hfr0 & Hlog0 & Hh0 & Hout0).
  destruct (run_returns cs s0) as [s Hrun]; [done|lia..|].
  destruct (run_steps _ _ _ Hwf0 Hrun) as (Hwf & _ & _ & Hidx & _ & _ & Hg & Hlog).
  destruct (run_data _ _ _ Hwf0 Hrun) as (Hrows & Hh & _ & Hfile).
  assert (ofstream.good (outfile s0) = true) as Hg0 by by rewrite Hout0.
  specialize (Hg Hg0). specialize (Hlog Hnow). specialize (Hfile Hg0 Hnow).
  exists s. eexists. split; [done|].
  unfold dtor. rewrite Hlog, Hlog0, write_within_capacity by done. cbn.
  split; [done|]. rewrite insert_good by done. unfold ofstream.close. cbn.
  split; [by destruct (ofstream.is_open (outfile s))|].
  assert (ofstream.file (if ofstream.is_open (outfile s)
            then {| ofstream.is_open := false; ofstream.fail := ofstream.fail (outfile s);
                    ofstream.file := ofstream.file (outfile s) +:+ serialization s |}
            else {| ofstream.is_open := false; ofstream.fail := true;
                    ofstream.file := ofstream.file (outfile s) +:+ serialization s |})
          = ofstream.file (outfile s) +:+ serialization s) as ->
    by by destruct (ofstream.is_open (outfile s)).
  rewrite Hfile, Hout0. cbn. unfold serialization.
  rewrite Hidx, Hrows, Hh, Hh0, Hfr0.
  unfold stored_indices, stored_rows. by rewrite Hi0, Hfr0.
Qed.

(** X7.  Calling [write()] and then destroying the recorder leaves exactly
    what destroying it alone leaves: on a recorder within capacity whose
    guard is not set, [write()] returns a recorder whose destructor ends as
    the destructor of the original does. *)
Theorem write_then_destroy s :
  within_capacity s →
  log_written s = false →
  ∃ s1, write s = Returns s1 ∧ dtor s1 = dtor s.
Proof.
  intros Hwf Hlog. eexists. split; [by apply write_within_capacity|].
  unfold dtor at 2. rewrite Hlog, write_within_capacity by done. done.
Qed.

(** X8.  After any call sequence that returns on a constructed recorder,
    [log_written] tells whether the sequence holds a [write()], and the
    destructor returns: it closes the stream, after one insertion of the
    serialization exactly when the sequence holds no [write()]. *)
Theorem destructor_writes_iff_never_written (T F : Z) (writable : bool) cs s0 s :
  ctor Ts tuple_init T F writable = Returns s0 →
  run s0 cs = Returns s →
  log_written s = existsb is_write cs ∧
  dtor s = Returns (ofstream.close
    (if existsb is_write cs then outfile s
     else ofstream.insert (outfile s) (serialization s))).
Proof.
  intros Hctor Hrun.
  destruct (ctor_fresh _ _ _ _ _ Hctor) as (Hwf0 & _ & _ & _ & _ & Hlog0 & _).
  destruct (run_steps _ _ _ Hwf0 Hrun) as (Hwf & _).
  destruct (run_data _ _ _ Hwf0 Hrun) as (_ & _ & Hlog & _).
  rewrite Hlog0 in Hlog. cbn in Hlog. split; [done|].
  unfold dtor. rewrite Hlog. destruct (existsb is_write cs); [done|].
  by rewrite write_within_capacity.
Qed.

(** X9.  A stream that is not good swallows everything: whatever calls
    follow, [write()] and the destructor included, the file stays as it
    is and the stream stays not good. *)
Theorem failed_stream_keeps_file s cs :
  ofstream.good (outfile s) = false →
  match run s cs with
  | Returns s' =>
      ofstream.good (outfile s') = false ∧
      ofstream.file (outfile s') = ofstream.file (outfile s)
  | _ => True
  end ∧
  match dtor s with
  | Returns o => ofstream.file o = ofstream.file (outfile s)
  | _ => True
  end.
Proof.
  intros Hg.
  set (R := fun (o _ : ofstream.t) =>
              ofstream.good o = false ∧ ofstream.file o = ofstream.file (outfile s)).
  assert (∀ o1 o2 x, R o1 o2 → R (ofstream.insert o1 x) (ofstream.insert o2 x)) as HR.
  { intros o1 o2 x [Hg1 Hf1]. unfold R. rewrite insert_not_good by done.
    split; [|done]. unfold ofstream.good. cbn. apply andb_false_r. }
  assert (related R s s) as Hrel by by repeat split.
  split.
  - pose proof (run_rel R HR cs s s Hrel) as Hrun.
    destruct (run s cs) as [s'| |]; [|done..]. by destruct Hrun as [_ ?].
  - unfold dtor. destruct (log_written s).
    + cbn. unfold ofstream.close. by destruct (ofstream.is_open _).
    + pose proof (write_rel R HR s s Hrel) as Hw.
      destruct (write s) as [s'| |]; [|done..]. cbn.
      destruct Hw as [_ [_ Hf]]. rewrite <- Hf.
      unfold ofstream.close. by destruct (ofstream.is_open _).
Qed.

(** X11.  A trial is delimited by its frames: [start_new_trial], then
    [add_frame] for each of [rows], then [start_new_trial] again, within
    the capacities, returns and records the two indices [n_rows] and
    [n_rows + length rows], and the rows in order. *)
Theorem trial_spans_its_frames s (rows : list (tuple Ts)) :
  within_capacity s →
  last_index s + 2 ≤ Z.of_nat (length (m_index s)) →
  last_frame s + Z.of_nat (length rows) ≤ Z.of_nat (length (m_content s)) →
  ∃ s', run s (StartNewTrial :: map AddFrame rows ++ [StartNewTrial]) = Returns s' ∧
    stored_indices s' =
      stored_indices s ++ [last_frame s; last_frame s + Z.of_nat (length rows)] ∧
    stored_rows s' = stored_rows s ++ rows.
Proof.
  intros Hwf Hi Hf.
  set (cs := StartNewTrial :: map AddFrame rows ++ [StartNewTrial]).
  destruct (add_frames_then rows [StartNewTrial] (last_frame s))
    as (Htr & Hfr & Hobs & Hrows).
  destruct (run_returns cs s) as [s' Hrun]; [done|..].
  - unfold cs. cbn [trials_started is_start_new_trial]. rewrite Htr. cbn. lia.
  - unfold cs. cbn [frames_added is_add_frame]. rewrite Hfr. cbn. lia.
  - exists s'. split; [done|].
    destruct (run_steps _ _ _ Hwf Hrun) as (_ & _ & _ & -> & _).
    destruct (run_data _ _ _ Hwf Hrun) as (-> & _).
    unfold cs. cbn [observed_n_rows frames_of]. rewrite Hobs, Hrows. cbn.
    by rewrite app_nil_r.
Qed.

(** X12.  Nothing is written beyond the counters: after any call sequence
    that returns on a constructed recorder, every slot of [m_content] from
    position [last_frame] on still holds the value-initialised tuple, and
    every slot of [m_index] from position [last_index] on still holds 0. *)
Theorem unused_slots_keep_initial_value (T F : Z) (writable : bool) cs s0 s (i : nat) :
  ctor Ts tuple_init T F writable = Returns s0 →
  run s0 cs = Returns s →
  ((Z.to_nat (last_frame s) ≤ i)%nat → (i < length (m_content s))%nat →
     m_content s !! i = Some tuple_init) ∧
  ((Z.to_nat (last_index s) ≤ i)%nat → (i < length (m_index s))%nat →
     m_index s !! i = Some 0).
Proof.
  intros Hctor Hrun.
  destruct (ctor_fresh _ _ _ _ _ Hctor) as (Hwf0 & _).
  apply ctor_inv in Hctor as (_ & _ & Hs0).
  enough ((∀ i : nat, (Z.to_nat (last_frame s) ≤ i)%nat → (i < length (m_content s))%nat →
             m_content s !! i = Some tuple_init) ∧
          (∀ i : nat, (Z.to_nat (last_index s) ≤ i)%nat → (i < length (m_index s))%nat →
             m_index s !! i = Some 0)) as [H1 H2] by (split; auto).
  assert ((∀ i : nat, (Z.to_nat (last_frame s0) ≤ i)%nat → (i < length (m_content s0))%nat →
             m_content s0 !! i = Some tuple_init) ∧
          (∀ i : nat, (Z.to_nat (last_index s0) ≤ i)%nat → (i < length (m_index s0))%nat →
             m_index s0 !! i = Some 0)) as Hinit.
  { rewrite Hs0. cbn. rewrite !length_replicate.
    split; intros j _ Hj; by apply lookup_replicate_2. }
  clear Hs0. revert s0 Hwf0 Hinit Hrun.
  induction cs as [|c cs IH]; intros s0 Hwf0 Hinit Hrun.
  - by injection Hrun as <-.
  - cbn [run] in Hrun. destruct (do_call s0 c) as [s1| |] eqn:Hc; try done.
    cbn in Hrun. apply (IH s1); [|by eapply do_call_unused|done].
    by destruct (do_call_step _ _ _ Hwf0 Hc).
Qed.

End CallSequences.

(** X10.  Text fields are printed as they are, so a row line does not
    determine the row: a tab inside a string field reads as a field
    separator.  With two string fields, the rows [(a<tab>b, c)] and
    [(a, b<tab>c)] are printed alike, whatever the stream. *)
Theorem tab_in_string_field_not_escaped (a b c : string) (o : ofstream.t) :
  write_tuple_impl [CString; CString] (a +:+ tab +:+ b, (c, tt)) o =
  write_tuple_impl [CString; CString] (a, (b +:+ tab +:+ c, tt)) o.
Proof.
  cbn. rewrite !insert_insert. by rewrite !string_app_assoc.
Qed.

(** X13.  No member function reads the stream: two recorders with the
    same vectors, counters, guard and headline go through any call
    sequence in the same way (both return, or both are undefined), and
    when they return they again agree on all of these, whatever the
    states of their two streams. *)
Theorem recorded_data_ignores_stream `{Streamable} {Ts : list ty}
    (s1 s2 : FrameLogger Ts) (cs : list (call Ts)) :
  same_data s1 s2 →
  outcome_rel same_data (run s1 cs) (run s2 cs).
Proof.
  intros Hsame.
  pose proof (run_rel (fun _ _ => True) (fun _ _ _ _ => I) cs s1 s2 (conj Hsame I)) as Hrun.
  destruct (run s1 cs), (run s2 cs); cbn in *; try done. by destruct Hrun.
Qed.

(** ** The properties of call sequences on concrete recorders *)

Lemma annotated_run : run fresh_recorder annotated_calls = Returns annotated_recorder.
Proof. vm_compute. reflexivity. Defined.

Lemma annotated_calls_without_write :
  forallb (fun c => negb (is_write c)) annotated_calls = true.
Proof. reflexivity. Defined.

Lemma run_ends_by_capacity_witness :
  trials_started scenario_calls ≤ 2 ∧ frames_added scenario_calls ≤ 5.
Proof.
  pose proof (run_ends_by_capacity scenario_init 2 5 true scenario_calls
                fresh_recorder fresh_recorder_constructed) as Hrun.
  rewrite scenario_run in Hrun. exact Hrun.
Defined.

Lemma counters_count_calls_witness :
  Z.of_nat (length (m_index scenario_recorder)) = 2 ∧
  Z.of_nat (length (m_content scenario_recorder)) = 5 ∧
  last_index scenario_recorder = 2 ∧ last_frame scenario_recorder = 5 ∧
  0 ≤ last_index scenario_recorder ≤ 2 ∧ 0 ≤ last_frame scenario_recorder ≤ 5.
Proof.
  exact (counters_count_calls scenario_init 2 5 true scenario_calls
           fresh_recorder scenario_recorder fresh_recorder_constructed scenario_run).
Defined.

Lemma rows_recorded_in_call_order_witness :
  stored_rows scenario_recorder =
    [ scenario_frame 1 "a"; scenario_frame 1 "a"; scenario_frame 1 "a";
      scenario_frame 4 "b"; scenario_frame 4 "b" ].
Proof.
  exact (rows_recorded_in_call_order scenario_init 2 5 true scenario_calls
           fresh_recorder scenario_recorder fresh_recorder_constructed scenario_run).
Defined.

Lemma last_headline_wins_witness : headline annotated_recorder = "count".
Proof.
  exact (last_headline_wins scenario_init 2 5 true annotated_calls
           fresh_recorder annotated_recorder fresh_recorder_constructed annotated_run).
Defined.

Lemma only_raw_calls_reach_file_witness :
  ofstream.file (outfile annotated_recorder) = "run 7" +:+ newline +:+ "x".
Proof.
  exact (only_raw_calls_reach_file fresh_recorder annotated_calls annotated_recorder
           fresh_recorder_within_capacity eq_refl annotated_calls_without_write
           annotated_run).
Defined.

Lemma file_left_by_calls_witness :
  ∃ s o, run fresh_recorder annotated_calls = Returns s ∧ dtor s = Returns o ∧
    ofstream.is_open o = false ∧
    ofstream.file o =
      "run 7" +:+ newline +:+ "x" +:+
      "trial index:" +:+ newline +:+
      "0" +:+ tab +:+ newline +:+
      newline +:+
      "fr_nr" +:+ tab +:+ "count" +:+ newline +:+
      "0" +:+ tab +:+ "1" +:+ tab +:+ "a" +:+ newline +:+
      "1" +:+ tab +:+ "4" +:+ tab +:+ "b" +:+ newline.
Proof.
  assert (trials_started annotated_calls ≤ 2) as Htr by (cbn; lia).
  assert (frames_added annotated_calls ≤ 5) as Hfr by (cbn; lia).
  exact (file_left_by_calls scenario_init 2 5 annotated_calls fresh_recorder
           fresh_recorder_constructed Htr Hfr annotated_calls_without_write).
Defined.

Lemma write_then_destroy_witness :
  ∃ s1, write fresh_recorder = Returns s1 ∧ dtor s1 = dtor fresh_recorder.
Proof.
  exact (write_then_destroy fresh_recorder fresh_recorder_within_capacity eq_refl).
Defined.

Lemma destructor_writes_iff_never_written_witness :
  (log_written scenario_recorder = true ∧
   dtor scenario_recorder = Returns (ofstream.close (outfile scenario_recorder))) ∧
  (log_written annotated_recorder = false ∧
   dtor annotated_recorder = Returns (ofstream.close
     (ofstream.insert (outfile annotated_recorder) (serialization annotated_recorder)))).
Proof.
  split.
  - exact (destructor_writes_iff_never_written scenario_init 2 5 true scenario_calls
             fresh_recorder scenario_recorder fresh_recorder_constructed scenario_run).
  - exact (destructor_writes_iff_never_written scenario_init 2 5 true annotated_calls
             fresh_recorder annotated_recorder fresh_recorder_constructed annotated_run).
Defined.

Lemma failed_stream_keeps_file_witness :
  ofstream.good (outfile unopened_recorder) = false ∧
  ∃ s', run unopened_recorder scenario_calls = Returns s' ∧
    ofstream.file (outfile s') = "".
Proof.
  split; [reflexivity|].
  pose proof (failed_stream_keeps_file unopened_recorder scenario_calls eq_refl)
    as [Hrun _].
  destruct (run unopened_recorder scenario_calls) as [s'| |] eqn:Hs.
  - exists s'. split; [reflexivity|]. exact (proj2 Hrun).
  - vm_compute in Hs. discriminate Hs.
  - vm_compute in Hs. discriminate Hs.
Defined.

Lemma trial_spans_its_frames_witness :
  ∃ s',
    run fresh_recorder
      [StartNewTrial; AddFrame (scenario_frame 1 "a"); AddFrame (scenario_frame 4 "b");
       StartNewTrial] = Returns s' ∧
    stored_indices s' = [0; 2] ∧
    stored_rows s' = [scenario_frame 1 "a"; scenario_frame 4 "b"].
Proof.
  exact (trial_spans_its_frames fresh_recorder
           [scenario_frame 1 "a"; scenario_frame 4 "b"]
           fresh_recorder_within_capacity ltac:(cbn; lia) ltac:(cbn; lia)).
Defined.

Lemma unused_slots_keep_initial_value_witness :
  m_content annotated_recorder !! 3%nat = Some scenario_init ∧
  m_index annotated_recorder !! 1%nat = Some 0.
Proof.
  destruct (unused_slots_keep_initial_value scenario_init 2 5 true annotated_calls
              fresh_recorder annotated_recorder 3%nat
              fresh_recorder_constructed annotated_run) as [Hrows _].
  destruct (unused_slots_keep_initial_value scenario_init 2 5 true annotated_calls
              fresh_recorder annotated_recorder 1%nat
              fresh_recorder_constructed annotated_run) as [_ Hidx].
  split; [apply Hrows | apply Hidx]; cbn; lia.
Defined.

Lemma recorded_data_ignores_stream_witness :
  same_data unopened_recorder fresh_recorder ∧
  ∃ s, run unopened_recorder scenario_calls = Returns s ∧
    same_data s scenario_recorder.
Proof.
  assert (same_data unopened_recorder fresh_recorder) as Hsame by by repeat split.
  split; [exact Hsame|].
  pose proof (recorded_data_ignores_stream unopened_recorder fresh_recorder
                scenario_calls Hsame) as Hrun.
  rewrite scenario_run in Hrun.
  destruct (run unopened_recorder scenario_calls) as [s| |] eqn:Hs.
  - exists s. split; [reflexivity|]. exact Hrun.
  - destruct Hrun.
  - destruct Hrun.
Defined.
